(** * node-logger: a shallow embedding of [index.js] and its specification

    The development follows the layout of the source file:

    - [JS]: the fragment of the JavaScript run time the logger relies on
      (numbers, primitive values, [Number], [Number.isInteger], the
      relational operator [>], [Set.prototype.has], string utilities);
    - the platform ([util], [chalk], [moment]) as an interface;
    - the object store, the immediate queue and the effect monad;
    - the level registry, the [Logger] constructor, the [level]
      accessor pair, [log], the per-level methods and the deferred
      [__write];
    - the properties of the specification.

    Conventions.  Loggers and routing tables live in a store and are
    named by location, so that a table shared with the caller, or a
    name changed after a call, is seen by the task that runs later.
    A rank is a number, as the documentation of [log] says; the values
    passed to the [level] setter and as message parts are primitive
    values.  A function that can raise returns [Raise e] together with
    the world at the point of the exception. *)

From Stdlib Require Import ZArith QArith Ascii String DecimalString List Lia Bool.
From stdpp Require Import base option list gmap strings.

Local Open Scope Z_scope.

(** ** The JavaScript fragment *)

Module JS.

(** A JavaScript number is an IEEE-754 binary64.  It is modelled by the
    value it denotes: [NaN], the two infinities, or the rational [q]
    that a finite double stands for.  [-0] and [+0] are identified: the
    logger only compares numbers ([>], [Set.prototype.has], property
    lookup), and none of these tells the two zeros apart. *)
Inductive number : Type :=
  | NaN
  | PosInf
  | NegInf
  | Fin (q : Q).

Definition of_Z (z : Z) : number := Fin (inject_Z z).

(** The primitive values a caller can hand to the logger. *)
Inductive value : Type :=
  | VUndefined
  | VNull
  | VBool (b : bool)
  | VNumber (n : number)
  | VString (s : string).

(** *** Rounding to binary64

    [round_double q] is the double nearest to [q], ties to even, with
    overflow to the infinities: the rounding ECMAScript prescribes for
    numeric literals. *)

(** [N / D] rounded to the nearest integer, ties to even ([0 < D]). *)
Definition round_half_even (N D : Z) : Z :=
  let qt := N / D in
  let r := N mod D in
  match (2 * r) ?= D with
  | Lt => qt
  | Gt => qt + 1
  | Eq => if Z.even qt then qt else qt + 1
  end.

(** Largest [e] with [2^e <= n / d], for positive [n] and [d]. *)
Definition floor_log2 (n d : Z) : Z :=
  let e0 := Z.log2 n - Z.log2 d in
  let fits := if 0 <=? e0 then d * 2 ^ e0 <=? n else d <=? n * 2 ^ (- e0) in
  if fits then e0 else e0 - 1.

Definition round_double (q : Q) : number :=
  let n := Z.abs (Qnum q) in
  let d := Zpos (Qden q) in
  if n =? 0 then Fin 0
  else
    let e := floor_log2 n d in
    let p := Z.max (e - 52) (-1074) in
    let m := if 0 <=? p then round_half_even n (d * 2 ^ p)
             else round_half_even (n * 2 ^ (- p)) d in
    let mag := if 0 <=? p then inject_Z (m * 2 ^ p)
               else Qred (Qmake m (Z.to_pos (2 ^ (- p)))) in
    if Qle_bool (inject_Z (2 ^ 1024)) mag
    then (if Qnum q <? 0 then NegInf else PosInf)
    else Fin (if Qnum q <? 0 then Qopp mag else mag).

(** *** Strings as sequences of bytes

    A JavaScript string is modelled by its UTF-8 bytes.  The code
    points the logger and [Number] inspect (digits, signs, line
    terminators, white space) are either ASCII or have a fixed UTF-8
    encoding, and no byte of a multi-byte sequence is below 128. *)

Definition bytes_of (s : string) : list N :=
  List.map N_of_ascii (list_ascii_of_string s).

(** ECMAScript [WhiteSpace] and [LineTerminator] code points. *)
Definition white_space : list (list N) :=
  ([ [9]; [10]; [11]; [12]; [13]; [32];
     [194; 160];                      (* U+00A0 *)
     [225; 154; 128];                 (* U+1680 *)
     [226; 128; 128]; [226; 128; 129]; [226; 128; 130]; [226; 128; 131];
     [226; 128; 132]; [226; 128; 133]; [226; 128; 134]; [226; 128; 135];
     [226; 128; 136]; [226; 128; 137]; [226; 128; 138]; (* U+2000-200A *)
     [226; 128; 168]; [226; 128; 169]; (* U+2028, U+2029 *)
     [226; 128; 175];                 (* U+202F *)
     [226; 129; 159];                 (* U+205F *)
     [227; 128; 128];                 (* U+3000 *)
     [239; 187; 191] ])%N.            (* U+FEFF *)

Fixpoint strip_prefix (p l : list N) : option (list N) :=
  match p, l with
  | [], _ => Some l
  | a :: p', b :: l' => if N.eqb a b then strip_prefix p' l' else None
  | _ :: _, [] => None
  end.

Fixpoint strip_any (ps : list (list N)) (l : list N) : option (list N) :=
  match ps with
  | [] => None
  | p :: ps' =>
      match strip_prefix p l with
      | Some r => Some r
      | None => strip_any ps' l
      end
  end.

Fixpoint trim_start_fuel (fuel : nat) (ps : list (list N)) (l : list N) : list N :=
  match fuel with
  | O => l
  | S k =>
      match strip_any ps l with
      | Some r => trim_start_fuel k ps r
      | None => l
      end
  end.

Definition trim_start (l : list N) : list N :=
  trim_start_fuel (List.length l) white_space l.

Definition trim_end (l : list N) : list N :=
  List.rev (trim_start_fuel (List.length l) (List.map (@List.rev N) white_space) (List.rev l)).

Definition trim (l : list N) : list N := trim_end (trim_start l).

(** *** [Number(string)]: ECMAScript [StringToNumber]

    White space is trimmed; the empty string is [0]; otherwise the
    text must be a [StringNumericLiteral]: a signed decimal literal, a
    signed [Infinity], or an unsigned hexadecimal, octal or binary
    integer.  Anything else is [NaN]. *)

Definition is_digit (b : N) : bool := ((48 <=? b) && (b <=? 57))%N.

Definition digit_val (b : N) : Z := Z.of_N b - 48.

Fixpoint span_digits (l : list N) : list N * list N :=
  match l with
  | b :: r =>
      if is_digit b then let (ds, rest) := span_digits r in (b :: ds, rest)
      else ([], l)
  | [] => ([], [])
  end.

Definition digits_value (ds : list N) : Z :=
  List.fold_left (fun acc d => 10 * acc + digit_val d) ds 0.

Definition radix_digit (radix : Z) (b : N) : option Z :=
  let v :=
    if is_digit b then Some (digit_val b)
    else if ((97 <=? b) && (b <=? 102))%N then Some (Z.of_N b - 87)
    else if ((65 <=? b) && (b <=? 70))%N then Some (Z.of_N b - 55)
    else None in
  match v with
  | Some d => if d <? radix then Some d else None
  | None => None
  end.

Fixpoint radix_value (radix acc : Z) (l : list N) : option Z :=
  match l with
  | [] => Some acc
  | b :: r =>
      match radix_digit radix b with
      | Some d => radix_value radix (radix * acc + d) r
      | None => None
      end
  end.

Definition non_decimal (l : list N) : option Z :=
  match l with
  | 48%N :: x :: (_ :: _) as ds =>
      if (N.eqb x 120 || N.eqb x 88) then radix_value 16 0 ds
      else if (N.eqb x 111 || N.eqb x 79) then radix_value 8 0 ds
      else if (N.eqb x 98 || N.eqb x 66) then radix_value 2 0 ds
      else None
  | _ => None
  end.

Definition split_sign (l : list N) : bool * list N :=
  match l with
  | 43%N :: r => (false, r)
  | 45%N :: r => (true, r)
  | _ => (false, l)
  end.

Definition parse_exponent (l : list N) : option Z :=
  match l with
  | [] => Some 0
  | c :: r =>
      if (N.eqb c 101 || N.eqb c 69) then
        let (neg, r') := split_sign r in
        let (ds, rest) := span_digits r' in
        match ds, rest with
        | _ :: _, [] => Some (if neg then - digits_value ds else digits_value ds)
        | _, _ => None
        end
      else None
  end.

Definition scale10 (m k : Z) : Q :=
  if 0 <=? k then inject_Z (m * 10 ^ k)
  else Qmake m (Z.to_pos (10 ^ (- k))).

Definition parse_unsigned_decimal (l : list N) : option Q :=
  let (ip, r1) := span_digits l in
  let (fp, r2) := match r1 with
                  | 46%N :: r => span_digits r
                  | _ => ([], r1)
                  end in
  match ip ++ fp with
  | [] => None
  | ds =>
      match parse_exponent r2 with
      | Some e => Some (scale10 (digits_value ds) (e - Z.of_nat (List.length fp)))
      | None => None
      end
  end.

Definition StringToNumber (s : string) : number :=
  match trim (bytes_of s) with
  | [] => Fin 0
  | l =>
      match non_decimal l with
      | Some z => round_double (inject_Z z)
      | None =>
          let (neg, r) := split_sign l in
          match strip_prefix (bytes_of "Infinity") r with
          | Some [] => if neg then NegInf else PosInf
          | _ =>
              match parse_unsigned_decimal r with
              | Some q => round_double (if neg then Qopp q else q)
              | None => NaN
              end
          end
      end
  end.

(** [Number(v)] on primitive values (ECMAScript [ToNumber]). *)
Definition Number (v : value) : number :=
  match v with
  | VUndefined => NaN
  | VNull => Fin 0
  | VBool true => Fin 1
  | VBool false => Fin 0
  | VNumber n => n
  | VString s => StringToNumber s
  end.

(** [Number.isInteger]. *)
Definition isInteger (n : number) : bool :=
  match n with
  | Fin q => Qnum q mod Zpos (Qden q) =? 0
  | _ => false
  end.

(** *** Comparisons *)

Definition compare (a b : number) : option comparison :=
  match a, b with
  | NaN, _ | _, NaN => None
  | PosInf, PosInf | NegInf, NegInf => Some Eq
  | PosInf, _ | _, NegInf => Some Gt
  | _, PosInf | NegInf, _ => Some Lt
  | Fin p, Fin q => Some (Qcompare p q)
  end.

(** [a > b] *)
Definition gt (a b : number) : bool :=
  match compare a b with Some Gt => true | _ => false end.

(** [a <= b] *)
Definition le (a b : number) : bool :=
  match compare a b with Some Lt | Some Eq => true | _ => false end.

(** [SameValueZero], the equality of [Set.prototype.has]. *)
Definition SameValueZero (a b : number) : bool :=
  match a, b with
  | NaN, NaN => true
  | _, _ => match compare a b with Some Eq => true | _ => false end
  end.

(** A [Set] of numbers, in insertion order. *)
Definition Set_has (s : list number) (x : number) : bool :=
  existsb (SameValueZero x) s.

(** [x == null] *)
Definition is_nullish (v : value) : bool :=
  match v with
  | VUndefined | VNull => true
  | _ => false
  end.

(** *** String utilities *)

Definition CR : ascii := ascii_of_N 13.
Definition LF : ascii := ascii_of_N 10.

(** [s.replace(/\r/g, '')] *)
Fixpoint remove_cr (s : string) : string :=
  match s with
  | EmptyString => EmptyString
  | String c r => if Ascii.eqb c CR then remove_cr r else String c (remove_cr r)
  end.

(** [s.split(/\n/)] *)
Fixpoint split_lf (s : string) : list string :=
  match s with
  | EmptyString => [EmptyString]
  | String c r =>
      if Ascii.eqb c LF then EmptyString :: split_lf r
      else match split_lf r with
           | l :: ls => String c l :: ls
           | [] => [String c EmptyString]
           end
  end.

(** [s.toLowerCase()], on the ASCII letters. *)
Definition lower_ascii (c : ascii) : ascii :=
  let n := N_of_ascii c in
  if ((65 <=? n) && (n <=? 90))%N then ascii_of_N (n + 32) else c.

Fixpoint toLowerCase (s : string) : string :=
  match s with
  | EmptyString => EmptyString
  | String c r => String (lower_ascii c) (toLowerCase r)
  end.

End JS.

Import JS.

Local Open Scope string_scope.
Local Open Scope list_scope.

(** ** The platform: [util], [chalk] and [moment]

    The three modules [index.js] requires are not part of the
    repository.  They are an interface here; the two laws are the only
    facts about them the logger's own behaviour depends on. *)

Inductive color : Type := red | yellow | blue | cyan | gray | magenta.

(** The value of [new Date()]: milliseconds since the epoch. *)
Definition Date : Type := Z.

(** Text made of ASCII characters other than ESC: no colour codes. *)
Definition uncoloured (s : string) : bool :=
  forallb (fun c => (N_of_ascii c <? 128)%N && negb (N_of_ascii c =? 27)%N)
          (list_ascii_of_string s).

Definition has_percent (s : string) : bool :=
  existsb (fun c => (N_of_ascii c =? 37)%N) (list_ascii_of_string s).

Class Platform : Type := {
  (** [chalk.red(s)], [chalk.blue(s)], ... *)
  chalk : color -> string -> string;
  (** [chalk.stripColor(s)] *)
  stripColor : string -> string;
  (** [moment(date).format('YYYY-MM-DD HH:mm:ss')] *)
  moment_format : Date -> string;
  (** [util.format.apply(util, messages)] *)
  util_format : list value -> string;
  stripColor_chalk :
    forall c s, uncoloured s = true -> stripColor (chalk c s) = s;
  util_format_plain :
    forall s, has_percent s = false -> util_format [VString s] = s
}.

(** ** The object store and the effect monad *)

Definition loc : Type := nat.

(** An output stream, by identity. *)
Definition stream : Type := nat.

Definition process_stdout : stream := 0%nat.

(** What a destination's [write] does when called: take the text,
    fail while returning normally (the failure is reported on the
    stream's own channel, later), or raise. *)
Inductive behaviour : Type := Accepts | FailsQuietly | Throws.

(** A [Map<Stream, Set<Integer>>] in iteration (insertion) order. *)
Definition StreamMap : Type := list (stream * list number).

(** A logger instance: [this.name] (absent when [null] or
    [undefined]), the hidden [__level] and the hidden [__streams], a
    reference to a [Map] of the store. *)
Record Logger : Type := mkLogger {
  name : option string;
  __level : number;
  __streams : loc
}.

(** The closure [log] hands to [setImmediate], by what it captures. *)
Record task : Type := mkTask {
  self : loc;
  now : Date;
  instLevel : number;
  args : number * list value
}.

Record world : Type := mkWorld {
  loggers : gmap loc Logger;
  maps : gmap loc StreamMap;
  immediates : list task;
  clock : Date;
  behaviour_of : stream -> behaviour;
  (** every call [stream.write(text)] made so far, oldest first *)
  written : list (stream * string)
}.

Definition set_loggers (f : gmap loc Logger -> gmap loc Logger) (w : world) : world :=
  mkWorld (f (loggers w)) (maps w) (immediates w) (clock w) (behaviour_of w) (written w).

Definition set_maps (f : gmap loc StreamMap -> gmap loc StreamMap) (w : world) : world :=
  mkWorld (loggers w) (f (maps w)) (immediates w) (clock w) (behaviour_of w) (written w).

Definition set_immediates (f : list task -> list task) (w : world) : world :=
  mkWorld (loggers w) (maps w) (f (immediates w)) (clock w) (behaviour_of w) (written w).

Definition set_clock (d : Date) (w : world) : world :=
  mkWorld (loggers w) (maps w) (immediates w) d (behaviour_of w) (written w).

Definition set_written (f : list (stream * string) -> list (stream * string)) (w : world) : world :=
  mkWorld (loggers w) (maps w) (immediates w) (clock w) (behaviour_of w) (f (written w)).

Definition add_written (calls : list (stream * string)) (w : world) : world :=
  set_written (fun l => l ++ calls) w.

Inductive error : Type :=
  | Error (message : string)      (* [new Error(message)] *)
  | TypeError                     (* use of a reference the store lacks *)
  | WriteError (s : stream).      (* raised by [s.write] *)

Inductive result (A : Type) : Type :=
  | Return (a : A)
  | Raise (e : error).
Arguments Return {A} a.
Arguments Raise {A} e.

Definition M (A : Type) : Type := world -> result A * world.

Definition ret {A} (a : A) : M A := fun w => (Return a, w).

Definition throw {A} (e : error) : M A := fun w => (Raise e, w).

Definition bind {A B} (m : M A) (k : A -> M B) : M B :=
  fun w => match m w with
           | (Return a, w') => k a w'
           | (Raise e, w') => (Raise e, w')
           end.

Notation "'let*' x ':=' c1 'in' c2" := (bind c1 (fun x => c2))
  (at level 10, x name, c1 at level 100, c2 at level 200).

Definition modify (f : world -> world) : M unit := fun w => (Return tt, f w).

Definition get_logger (l : loc) : M Logger :=
  fun w => match loggers w !! l with
           | Some lg => (Return lg, w)
           | None => (Raise TypeError, w)
           end.

Definition get_map (l : loc) : M StreamMap :=
  fun w => match maps w !! l with
           | Some m => (Return m, w)
           | None => (Raise TypeError, w)
           end.

(** [new Date()] *)
Definition new_Date : M Date := fun w => (Return (clock w), w).

(** [setImmediate(callback)]: the callback joins the immediate queue. *)
Definition setImmediate (t : task) : M unit :=
  modify (set_immediates (fun q => q ++ [t])).

(** [stream.write(text)] *)
Definition stream_write (s : stream) (text : string) : M unit :=
  fun w =>
    let w' := add_written [(s, text)] w in
    match behaviour_of w s with
    | Throws => (Raise (WriteError s), w')
    | _ => (Return tt, w')
    end.

Definition newline : string := String LF "".

(** ** [index.js] *)

Section Logger.

Context {P : Platform}.

(** *** The level registry *)

(** The array literal the registry is built from: [value] and [name]. *)
Definition level_descriptors : list (Z * string) :=
  [ (1, chalk red "SEVERE");
    (2, chalk yellow "WARNING");
    (3, chalk blue "INFO");
    (4, chalk cyan "FINE");
    (5, chalk gray "FINER");
    (6, chalk gray "FINEST") ].

(** [levels]: one enumerable property per descriptor, keyed by the
    name without its colour, in definition order. *)
Definition levels : list (string * number) :=
  List.map (fun level => (stripColor (snd level), of_Z (fst level))) level_descriptors.

(** [reverseLevels]: keyed by the rank.  A property key is the rank's
    decimal text, and two numbers have the same text exactly when they
    are the same value, so the lookup compares the numbers. *)
Definition reverseLevels : list (number * string) :=
  List.map (fun level => (of_Z (fst level), snd level)) level_descriptors.

(** [Object.keys(levels)] *)
Definition Object_keys (o : list (string * number)) : list string := List.map fst o.

Definition levels_get (key : string) : option number :=
  snd <$> List.find (fun p => String.eqb (fst p) key) levels.

(** [levels[key]].  A missing property reads as [undefined]; every
    place such a rank could reach ([>], [Set.prototype.has] on a set of
    numbers, the [reverseLevels] lookup) treats [undefined] as [NaN]. *)
Definition levels_at (key : string) : number :=
  match levels_get key with
  | Some r => r
  | None => NaN
  end.

(** [reverseLevels[messageLevel]] *)
Definition reverseLevels_get (messageLevel : number) : option string :=
  snd <$> List.find (fun p => SameValueZero (fst p) messageLevel) reverseLevels.

(** *** The constructor and the [level] accessors *)

Definition getLevel (this : loc) : M number :=
  let* lg := get_logger this in
  ret (__level lg).

(** [new Error('Invalid loglevel provided!')] *)
Definition invalid_level : error := Error "Invalid loglevel provided!".

Definition setLevel (this : loc) (level : value) : M unit :=
  let level := Number level in
  if negb (isInteger level) then throw invalid_level
  else
    let* lg := get_logger this in
    modify (set_loggers (insert this (mkLogger (name lg) level (__streams lg)))).

(** [this.name = n], from outside. *)
Definition set_name (this : loc) (n : option string) : M unit :=
  let* lg := get_logger this in
  modify (set_loggers (insert this (mkLogger n (__level lg) (__streams lg)))).

Definition set_streams (this : loc) (m : loc) : M unit :=
  let* lg := get_logger this in
  modify (set_loggers (insert this (mkLogger (name lg) (__level lg) m))).

Definition alloc_map (m : StreamMap) : M loc :=
  fun w =>
    let l := fresh (dom (maps w) : gset loc) in
    (Return l, set_maps (insert l m) w).

Definition alloc_logger (lg : Logger) : M loc :=
  fun w =>
    let l := fresh (dom (loggers w) : gset loc) in
    (Return l, set_loggers (insert l lg) w).

(** The [options] argument: [options.streams], when given, refers to a
    [Map] the caller owns. *)
Record Options : Type := mkOptions { streams : option loc }.

(** [Object.keys(levels).map(function (key) { return levels[key]; })] *)
Definition levelsList : list number :=
  List.map (fun key => levels_at key) (Object_keys levels).

(** [new Map([[process.stdout, new Set(levelsList)]])] *)
Definition default_streams : StreamMap := [(process_stdout, levelsList)].

(** [new Logger(name, level, options)] *)
Definition new_Logger (name : option string) (level : value)
    (options : option Options) : M loc :=
  let* default_streams := alloc_map default_streams in
  let* this := alloc_logger (mkLogger name (levels_at "WARNING") default_streams) in
  let* _ := (if negb (is_nullish level) then setLevel this level else ret tt) in
  let options := match options with
                 | None => mkOptions None
                 | Some o => o
                 end in
  let* _ := (match streams options with
             | Some m => set_streams this m
             | None => ret tt
             end) in
  ret this.

(** *** [log] and the per-level methods *)

(** [level] is the rank, a number; [messages] are the remaining
    arguments. *)
Definition log (this : loc) (level : number) (messages : list value) : M unit :=
  let* now := new_Date in
  let* threshold := getLevel this in
  if gt level threshold then ret tt
  else
    let* instLevel := getLevel this in
    setImmediate (mkTask this now instLevel (level, messages)).

(** The methods the loop over [Object.keys(levels)] adds to
    [Logger.prototype], in the order it adds them. *)
Definition level_methods : list (string * (loc -> list value -> M unit)) :=
  List.map (fun level =>
              (toLowerCase level,
               fun this arguments =>
                 let args := (levels_at level, arguments) in
                 log this (fst args) (snd args)))
           (Object_keys levels).

(** *** The deferred [__write] *)

Definition prefix_of (timestamp : string) (nm : option string)
    (messageLevel : number) : string :=
  "[" +:+ chalk blue timestamp +:+ "]["
      +:+ (match nm with
           | None => ""
           | Some n => chalk magenta n
           end) +:+ "]["
      +:+ (match reverseLevels_get messageLevel with
           | Some display => display
           | None => "undefined"
           end) +:+ "]".

(** [[prefix, sep, line].join(' ') + '\n'] *)
Definition format_line (prefix sep line : string) : string :=
  prefix +:+ " " +:+ sep +:+ " " +:+ line +:+ newline.

(** The [for ... of] loop over the entries of the routing table. *)
Fixpoint write_entries (entries : StreamMap) (messageLevel : number)
    (text : string) : M unit :=
  match entries with
  | [] => ret tt
  | (stream, applicableLevels) :: rest =>
      let* _ := (if Set_has applicableLevels messageLevel
                 then stream_write stream text
                 else ret tt) in
      write_entries rest messageLevel text
  end.

(** The [forEach] over the lines; [sep] is the variable the callback
    reads and then overwrites. *)
Fixpoint write_lines (this : loc) (prefix sep : string) (messageLevel : number)
    (lines : list string) : M unit :=
  match lines with
  | [] => ret tt
  | line :: rest =>
      let* lg := get_logger this in
      let* entries := get_map (__streams lg) in
      let* _ := write_entries entries messageLevel (format_line prefix sep line) in
      write_lines this prefix "   " messageLevel rest
  end.

Definition __write (this : loc) (date : Date) (instLevel messageLevel : number)
    (messages : list value) : M unit :=
  let timestamp := moment_format date in
  let message := util_format messages in
  let* lg := get_logger this in
  let prefix := prefix_of timestamp (name lg) messageLevel in
  let sep := "***" in
  write_lines this prefix sep messageLevel (split_lf (remove_cr message)).

(** *** The immediate queue *)

(** The callback of [log]: [__write.apply(self, [now, instLevel, ...args])]. *)
Definition run_task (t : task) : M unit :=
  __write (self t) (now t) (instLevel t) (fst (args t)) (snd (args t)).

(** One turn of the event loop, as Node's [processImmediate] runs it:
    the queue is taken, leaving an empty one for the callbacks queued
    meanwhile, and the callbacks taken are run in order.  The run of one
    callback is the deferred flush of one call to [log].  An exception
    no one catches ends the turn; the callbacks behind the one that
    threw have not run, and are put back, ahead of those queued
    meanwhile, for the next turn. *)
Fixpoint run_tasks (ts : list task) : M unit :=
  match ts with
  | [] => ret tt
  | t :: rest =>
      fun w =>
        match run_task t w with
        | (Return _, w') => run_tasks rest w'
        | (Raise e, w') => (Raise e, set_immediates (fun q => rest ++ q) w')
        end
  end.

Definition run_immediates : M unit :=
  fun w => run_tasks (immediates w) (set_immediates (fun _ => []) w).

(** [map.set(stream, levels)] on a routing table, from outside. *)
Fixpoint Map_set_entries (s : stream) (lv : list number) (m : StreamMap) : StreamMap :=
  match m with
  | [] => [(s, lv)]
  | (k, v) :: rest =>
      if Nat.eqb k s then (k, lv) :: rest else (k, v) :: Map_set_entries s lv rest
  end.

Definition Map_set (m : loc) (s : stream) (lv : list number) : M unit :=
  let* entries := get_map m in
  modify (set_maps (insert m (Map_set_entries s lv entries))).

End Logger.

(** ** Two platforms

    [plain_platform] is a terminal without colour support;
    [ansi_platform] wraps text in ANSI colour codes.  Both format
    dates in UTC and join message parts with spaces. *)

Module Platforms.

Definition digit_char (d : Z) : ascii := ascii_of_N (Z.to_N (48 + d mod 10)).

Fixpoint decimal (width : nat) (z : Z) : string :=
  match width with
  | O => ""
  | S k => decimal k (z / 10) +:+ String (digit_char z) ""
  end.

(** Civil date of a day count from 1970-01-01 (proleptic Gregorian). *)
Definition civil_of_days (days : Z) : Z * Z * Z :=
  let z := days + 719468 in
  let era := z / 146097 in
  let doe := z - era * 146097 in
  let yoe := (doe - doe / 1460 + doe / 36524 - doe / 146096) / 365 in
  let doy := doe - (365 * yoe + yoe / 4 - yoe / 100) in
  let mp := (5 * doy + 2) / 153 in
  let d := doy - (153 * mp + 2) / 5 + 1 in
  let m := if (mp <? 10)%Z then mp + 3 else mp - 9 in
  let y := yoe + era * 400 + (if (m <=? 2)%Z then 1 else 0) in
  (y, m, d).

Definition utc_format (date : Date) : string :=
  let secs := date / 1000 in
  let '(y, m, d) := civil_of_days (secs / 86400) in
  let s := secs mod 86400 in
  decimal 4 y +:+ "-" +:+ decimal 2 m +:+ "-" +:+ decimal 2 d +:+ " "
    +:+ decimal 2 (s / 3600) +:+ ":" +:+ decimal 2 (s mod 3600 / 60)
    +:+ ":" +:+ decimal 2 (s mod 60).

Definition decimal_of_Z (z : Z) : string :=
  NilZero.string_of_int (Z.to_int z).

(** Integers print in decimal, other finite numbers as a fraction. *)
Definition display (v : value) : string :=
  match v with
  | VUndefined => "undefined"
  | VNull => "null"
  | VBool true => "true"
  | VBool false => "false"
  | VNumber NaN => "NaN"
  | VNumber PosInf => "Infinity"
  | VNumber NegInf => "-Infinity"
  | VNumber (Fin q) =>
      if isInteger (Fin q) then decimal_of_Z (Qnum q / Zpos (Qden q))
      else decimal_of_Z (Qnum q) +:+ "/" +:+ decimal_of_Z (Zpos (Qden q))
  | VString s => s
  end.

Fixpoint join_space (parts : list string) : string :=
  match parts with
  | [] => ""
  | [p] => p
  | p :: rest => p +:+ " " +:+ join_space rest
  end.

Definition join_format (messages : list value) : string :=
  join_space (List.map display messages).

Definition ESC : ascii := ascii_of_N 27.

Definition ansi_code (c : color) : string :=
  match c with
  | red => "31"
  | yellow => "33"
  | blue => "34"
  | cyan => "36"
  | gray => "90"
  | magenta => "35"
  end.

Definition ansi_chalk (c : color) (s : string) : string :=
  String ESC ("[" +:+ ansi_code c +:+ "m") +:+ s +:+ String ESC "[39m".

(** Drops every run from ESC to the next [m]. *)
Fixpoint strip_escapes (inside : bool) (s : string) : string :=
  match s with
  | EmptyString => EmptyString
  | String c r =>
      if inside then strip_escapes (negb (Ascii.eqb c "m")) r
      else if Ascii.eqb c ESC then strip_escapes true r
      else String c (strip_escapes false r)
  end.

Lemma strip_escapes_app (s t : string) :
  uncoloured s = true ->
  strip_escapes false (s +:+ t) = s +:+ strip_escapes false t.
Proof.
  unfold uncoloured. induction s as [|c s IH]; simpl; intros H; [reflexivity|].
  apply andb_prop in H as [Hc Hs]. apply andb_prop in Hc as [_ Hesc].
  replace (Ascii.eqb c ESC) with false.
  - now rewrite IH.
  - symmetry. apply Ascii.eqb_neq. intros ->. discriminate Hesc.
Qed.

Lemma strip_ansi_chalk (c : color) (s : string) :
  uncoloured s = true -> strip_escapes false (ansi_chalk c s) = s.
Proof.
  intros H. unfold ansi_chalk.
  assert (Hs : strip_escapes false (s +:+ String ESC "[39m") = s).
  { rewrite strip_escapes_app by exact H. simpl.
    clear H. induction s as [|a u IH]; [reflexivity|].
    change (String a u +:+ "") with (String a (u +:+ "")). now rewrite IH. }
  destruct c; simpl; exact Hs.
Qed.

Lemma join_format_plain (s : string) :
  has_percent s = false -> join_format [VString s] = s.
Proof. reflexivity. Qed.

Definition plain_platform : Platform :=
  {| chalk := fun _ s => s;
     stripColor := fun s => s;
     moment_format := utc_format;
     util_format := join_format;
     stripColor_chalk := fun _ _ _ => eq_refl;
     util_format_plain := join_format_plain |}.

Definition ansi_platform : Platform :=
  {| chalk := ansi_chalk;
     stripColor := strip_escapes false;
     moment_format := utc_format;
     util_format := join_format;
     stripColor_chalk := strip_ansi_chalk;
     util_format_plain := join_format_plain |}.

End Platforms.

(** ** Sample worlds *)

Module Sample.

Import Platforms.

(** Nothing allocated, nothing queued, every destination healthy. *)
Definition empty_world : world :=
  mkWorld ∅ ∅ [] 1446523200000 (fun _ => Accepts) [].

(** After [new Logger('svc', Logger.levels.INFO)]: the logger is at
    location [0] and writes to standard output. *)
Definition svc_world : world :=
  snd (new_Logger (P := plain_platform) (Some "svc") (VNumber (of_Z 3)) None
         empty_world).

Definition svc : Logger := mkLogger (Some "svc") (of_Z 3) 0%nat.

(** Two destinations: stream [1] takes SEVERE, WARNING and INFO,
    stream [2] takes INFO only. *)
Definition two_streams : StreamMap :=
  [ (1%nat, [of_Z 1; of_Z 2; of_Z 3]); (2%nat, [of_Z 3]) ].

(** After [new Logger('app', Logger.levels.FINEST, {streams: map})]
    with [map] the table above, held at location [7] of the store. *)
Definition routed_world (beh : stream -> behaviour) : world :=
  snd (new_Logger (P := plain_platform) (Some "app") (VNumber (of_Z 6))
         (Some (mkOptions (Some 7%nat)))
         (mkWorld ∅ {[ 7%nat := two_streams ]} [] 1446523200000 beh [])).

Definition app : Logger := mkLogger (Some "app") (of_Z 6) 7%nat.

Definition healthy : stream -> behaviour := fun _ => Accepts.

(** Stream [1] raises on every write. *)
Definition first_raises : stream -> behaviour :=
  fun s => if Nat.eqb s 1 then Throws else Accepts.


(** Stream [1] fails on every write without raising. *)
Definition first_fails_quietly : stream -> behaviour :=
  fun s => if Nat.eqb s 1 then FailsQuietly else Accepts.

End Sample.

(** The message ["a\nb\nc"]. *)
Definition abc : string := "a" +:+ newline +:+ "b" +:+ newline +:+ "c".

(** ** What a flush is expected to write

    The definitions of this section follow the words of the
    specification; the theorems below compare them with [__write]. *)

Section Expected.

Context {P : Platform}.

(** The streams of a routing table whose level set contains the rank. *)
Definition accepting (entries : StreamMap) (messageLevel : number) : list stream :=
  List.map fst (List.filter (fun e => Set_has (snd e) messageLevel) entries).

(** One physical line, fanned out to the accepting streams. *)
Definition fan_out (entries : StreamMap) (messageLevel : number)
    (text : string) : list (stream * string) :=
  List.map (fun s => (s, text)) (accepting entries messageLevel).

(** The formatted lines of a message: [***] marks the first one, a
    blank field of the same width the others. *)
Definition marked_from (prefix sep : string) (lines : list string) : list string :=
  match lines with
  | [] => []
  | first :: rest =>
      format_line prefix sep first :: List.map (format_line prefix "   ") rest
  end.

Definition marked_lines (prefix : string) (lines : list string) : list string :=
  marked_from prefix "***" lines.

(** Every write of a flush, line by line, each line to the accepting
    streams in table order. *)
Definition planned (entries : StreamMap) (messageLevel : number)
    (texts : list string) : list (stream * string) :=
  List.concat (List.map (fan_out entries messageLevel) texts).

(** The calls actually made when a raising destination ends the
    flush: all planned calls up to and including the first one to a
    raising destination. *)
Fixpoint attempted (beh : stream -> behaviour) (calls : list (stream * string))
    : list (stream * string) * option stream :=
  match calls with
  | [] => ([], None)
  | (s, text) :: rest =>
      match beh s with
      | Throws => ([(s, text)], Some s)
      | _ => let (tr, failed) := attempted beh rest in ((s, text) :: tr, failed)
      end
  end.

(** The calls made on stream [s]. *)
Definition to_stream (s : stream) (c : stream * string) : bool :=
  Nat.eqb (fst c) s.

(** The texts a stream has been handed, oldest first. *)
Definition received (s : stream) (w : world) : list string :=
  List.map snd (List.filter (to_stream s) (written w)).

Definition outcome (failed : option stream) : result unit :=
  match failed with
  | None => Return tt
  | Some s => Raise (WriteError s)
  end.

(** The call [log(level, ...messages)] made in world [w] was accepted
    and [t] is its deferred task. *)
Definition queues (this : loc) (level : number) (messages : list value)
    (w : world) (t : task) : Prop :=
  log this level messages w
  = (Return tt, set_immediates (fun q => q ++ [t]) w).

(** The lines of a message, as [__write] cuts them. *)
Definition lines_of (messages : list value) : list string :=
  split_lf (remove_cr (util_format messages)).

End Expected.

(** Two worlds that differ at most in the thresholds of their loggers. *)
Definition same_but_levels (a b : world) : Prop :=
  (forall l,
      option_Forall2
        (fun x y => name x = name y /\ __streams x = __streams y)
        (loggers a !! l) (loggers b !! l))
  /\ maps a = maps b
  /\ immediates a = immediates b
  /\ behaviour_of a = behaviour_of b
  /\ written a = written b.

(** A series of assignments [instance.level = v], on any instances;
    those that raise leave the world as it was. *)
Definition assign_levels (changes : list (loc * value)) (w : world) : world :=
  List.fold_left (fun w c => snd (setLevel (fst c) (snd c) w)) changes w.

(** A computation that reads no threshold. *)
Definition level_blind (m : M unit) : Prop :=
  forall a b, same_but_levels a b ->
              fst (m a) = fst (m b) /\ same_but_levels (snd (m a)) (snd (m b)).

(** ** Further definitions

    What the properties beyond the claims speak about: joining lines,
    the calls a client can make, and the property helpers [__hidden]
    and [__virtual]. *)

(** [lines.join('\n')], the inverse of [split_lf]. *)
Fixpoint join_lf (lines : list string) : string :=
  match lines with
  | [] => ""
  | [line] => line
  | line :: rest => line +:+ newline +:+ join_lf rest
  end.

Fixpoint has_char (c : ascii) (s : string) : bool :=
  match s with
  | EmptyString => false
  | String a r => Ascii.eqb a c || has_char c r
  end.

Fixpoint count_char (c : ascii) (s : string) : nat :=
  match s with
  | EmptyString => O
  | String a r => (if Ascii.eqb a c then 1 else 0) + count_char c r
  end.

(** What a client of the module can do to the world: construct a
    logger, assign its threshold or its name, call [log] or a
    per-level method, change a routing table, let time pass, and let
    the event loop run the queue. *)
Inductive action : Type :=
  | Construct (name : option string) (level : value) (options : option Options)
  | AssignLevel (this : loc) (v : value)
  | AssignName (this : loc) (n : option string)
  | Call (this : loc) (level : number) (messages : list value)
  | CallMethod (i : nat) (this : loc) (arguments : list value)
  | SetRoute (m : loc) (s : stream) (lv : list number)
  | Tick (d : Date)
  | RunImmediates.

Definition perform {P : Platform} (a : action) (w : world) : world :=
  match a with
  | Construct name level options => snd (new_Logger name level options w)
  | AssignLevel this v => snd (setLevel this v w)
  | AssignName this n => snd (set_name this n w)
  | Call this level messages => snd (log this level messages w)
  | CallMethod i this arguments =>
      match level_methods !! i with
      | Some (_, method) => snd (method this arguments w)
      | None => w
      end
  | SetRoute m s lv => snd (Map_set m s lv w)
  | Tick d => set_clock d w
  | RunImmediates => snd (run_immediates w)
  end.

Definition perform_all {P : Platform} (actions : list action) (w : world) : world :=
  List.fold_left (fun w a => perform a w) actions w.

(** The world the constructor leaves: the default table at a fresh
    location of the store, the logger at a fresh location. *)
Definition constructed {P : Platform} (nm : option string) (lvl : number)
    (st : loc) (w0 : world) : world :=
  set_loggers
    (insert (fresh (dom (loggers w0) : gset loc)) (mkLogger nm lvl st))
    (set_maps (insert (fresh (dom (maps w0) : gset loc)) default_streams) w0).

(** Every logger of the world has an integer threshold. *)
Definition integer_thresholds (w : world) : Prop :=
  forall l lg, loggers w !! l = Some lg -> isInteger (__level lg) = true.

(** *** Own properties and [Object.defineProperty]

    An object is the list of its own properties in creation order;
    [Object.keys] reorders the names that are array indices.
    [defineProperty] follows ECMAScript's
    ValidateAndApplyPropertyDescriptor on an extensible object; [None]
    is the [TypeError] it raises. *)

Module Props.

(** *** The order of the keys

    OrdinaryOwnPropertyKeys lists the names that are array indices
    first, in ascending numeric order, and then the other names in
    creation order.  An array index is the canonical decimal string of
    an integer from [0] to [2^32 - 2]: digits only, no leading zero
    but for ["0"] itself. *)

Definition array_index (P : string) : option Z :=
  match bytes_of P with
  | [] => None
  | [48%N] => Some 0
  | 48%N :: _ => None
  | bs =>
      if List.forallb is_digit bs && (digits_value bs <? 4294967295)%Z
      then Some (digits_value bs)
      else None
  end.

Definition is_array_index (P : string) : bool :=
  match array_index P with
  | Some _ => true
  | None => false
  end.

(** The names that are array indices, each with its number. *)
Fixpoint index_names (names : list string) : list (Z * string) :=
  match names with
  | [] => []
  | k :: rest =>
      match array_index k with
      | Some i => (i, k) :: index_names rest
      | None => index_names rest
      end
  end.

Fixpoint insert_index (x : Z * string) (l : list (Z * string))
    : list (Z * string) :=
  match l with
  | [] => [x]
  | y :: rest =>
      if (fst x <=? fst y)%Z then x :: l else y :: insert_index x rest
  end.

Definition sort_indices (l : list (Z * string)) : list (Z * string) :=
  List.fold_right insert_index [] l.

Definition order_keys (names : list string) : list string :=
  List.map snd (sort_indices (index_names names))
  ++ List.filter (fun k => negb (is_array_index k)) names.

Section Objects.

(** The values a data property holds, with [SameValue] on them. *)
Variable V : Type.
Variable SameValue : V -> V -> bool.
Variable undefined : V.

(** A function, by identity. *)
Definition fn : Type := nat.

Inductive property : Type :=
  | Data (v : V) (w e c : bool)
  | Accessor (g s : option fn) (e c : bool).

(** A property descriptor: every field may be absent. *)
Record descriptor : Type := mkDescriptor {
  value : option V;
  writable : option bool;
  get : option (option fn);
  set : option (option fn);
  enumerable : option bool;
  configurable : option bool
}.

Definition object : Type := list (string * property).

Definition is_enumerable (p : property) : bool :=
  match p with
  | Data _ _ e _ => e
  | Accessor _ _ e _ => e
  end.

Definition is_configurable (p : property) : bool :=
  match p with
  | Data _ _ _ c => c
  | Accessor _ _ _ c => c
  end.

Definition is_accessor (p : property) : bool :=
  match p with
  | Data _ _ _ _ => false
  | Accessor _ _ _ _ => true
  end.

Definition is_writable (p : property) : bool :=
  match p with
  | Data _ w _ _ => w
  | Accessor _ _ _ _ => false
  end.

Fixpoint own (o : object) (P : string) : option property :=
  match o with
  | [] => None
  | (k, p) :: rest => if String.eqb k P then Some p else own rest P
  end.

Fixpoint replace (o : object) (P : string) (p : property) : object :=
  match o with
  | [] => []
  | (k, q) :: rest =>
      if String.eqb k P then (k, p) :: rest else (k, q) :: replace rest P p
  end.

(** The names other than [P]. *)
Definition other_than (P : string) (k : string) : bool := negb (String.eqb k P).

(** The enumerable own names, in creation order. *)
Definition enumerable_names (o : object) : list string :=
  List.map fst (List.filter (fun kp => is_enumerable (snd kp)) o).

(** [Object.keys(o)]: the enumerable own names in the order of
    OrdinaryOwnPropertyKeys. *)
Definition keys (o : object) : list string :=
  order_keys (enumerable_names o).

Definition is_data_descriptor (d : descriptor) : bool :=
  match value d, writable d with
  | None, None => false
  | _, _ => true
  end.

Definition is_accessor_descriptor (d : descriptor) : bool :=
  match get d, set d with
  | None, None => false
  | _, _ => true
  end.

Definition or_default {A} (a : A) (o : option A) : A :=
  match o with
  | Some x => x
  | None => a
  end.

Definition same_fn (a b : option fn) : bool :=
  match a, b with
  | None, None => true
  | Some x, Some y => Nat.eqb x y
  | _, _ => false
  end.

(** The property a descriptor creates where none exists. *)
Definition create (d : descriptor) : property :=
  if is_accessor_descriptor d
  then Accessor (or_default None (get d)) (or_default None (set d))
                (or_default false (enumerable d)) (or_default false (configurable d))
  else Data (or_default undefined (value d)) (or_default false (writable d))
            (or_default false (enumerable d)) (or_default false (configurable d)).

(** Whether a descriptor may be applied to an existing property. *)
Definition allowed (current : property) (d : descriptor) : bool :=
  if is_configurable current then true
  else
    match configurable d with
    | Some true => false
    | _ =>
        match enumerable d with
        | Some e => Bool.eqb e (is_enumerable current)
        | None => true
        end
        && match current with
           | Data v w _ _ =>
               if is_accessor_descriptor d then false
               else if w then true
               else match writable d with
                    | Some true => false
                    | _ => match value d with
                           | Some v' => SameValue v' v
                           | None => true
                           end
                    end
           | Accessor g s _ _ =>
               if is_data_descriptor d then false
               else match get d with
                    | Some g' => same_fn g' g
                    | None => true
                    end
                    && match set d with
                       | Some s' => same_fn s' s
                       | None => true
                       end
           end
    end.

(** The existing property with the descriptor's fields applied. *)
Definition applied (current : property) (d : descriptor) : property :=
  let e := or_default (is_enumerable current) (enumerable d) in
  let c := or_default (is_configurable current) (configurable d) in
  match current with
  | Data v w _ _ =>
      if is_accessor_descriptor d
      then Accessor (or_default None (get d)) (or_default None (set d)) e c
      else Data (or_default v (value d)) (or_default w (writable d)) e c
  | Accessor g s _ _ =>
      if is_data_descriptor d
      then Data (or_default undefined (value d)) (or_default false (writable d)) e c
      else Accessor (or_default g (get d)) (or_default s (set d)) e c
  end.

(** [Object.defineProperty(o, P, d)] *)
Definition defineProperty (o : object) (P : string) (d : descriptor)
    : option object :=
  if is_data_descriptor d && is_accessor_descriptor d then None
  else
    match own o P with
    | None => Some (o ++ [(P, create d)])
    | Some current =>
        if allowed current d then Some (replace o P (applied current d))
        else None
    end.

(** [__hidden(inst, name, value)] *)
Definition __hidden (inst : object) (name : string) (v : V) : option object :=
  defineProperty inst name
    (mkDescriptor (Some v) (Some true) None None (Some false) (Some false)).

(** [__virtual(inst, name, getter, setter)]; [setter] is [None] when
    the argument is [null] or [undefined]. *)
Definition __virtual (inst : object) (name : string) (getter : fn)
    (setter : option fn) : option object :=
  let props := mkDescriptor None None (Some (Some getter)) None (Some true) None in
  let props :=
    match setter with
    | Some f =>
        mkDescriptor (value props) (writable props) (get props) (Some (Some f))
                     (enumerable props) (configurable props)
    | None => props
    end in
  defineProperty inst name props.

(** An assignment [o.P = v] in strict code, on own properties. *)
Inductive assignment : Type :=
  | Stored (o' : object)
  | CallsSetter (f : fn)
  | Refused.

Definition assign (o : object) (P : string) (v : V) : assignment :=
  match own o P with
  | None => Stored (o ++ [(P, Data v true true true)])
  | Some (Data _ true e c) => Stored (replace o P (Data v true e c))
  | Some (Data _ false _ _) => Refused
  | Some (Accessor _ (Some f) _ _) => CallsSetter f
  | Some (Accessor _ None _ _) => Refused
  end.

(** The own properties the constructor gives [this], in the order it
    defines them. *)
Definition instance_properties (name level streams : V) (getLevel setLevel : fn)
    : option object :=
  match assign [] "name" name with
  | Stored o1 =>
      match __hidden o1 "__level" level with
      | Some o2 =>
          match __virtual o2 "level" getLevel (Some setLevel) with
          | Some o3 => __hidden o3 "__streams" streams
          | None => None
          end
      | None => None
      end
  | _ => None
  end.

End Objects.

End Props.

(** ** Properties *)

(** *** Numbers *)

Lemma le_not_gt (a b : number) : le a b = true -> gt a b = false.
Proof.
  unfold le, gt. destruct (JS.compare a b) as [[]|]; intros H; congruence.
Qed.

Lemma gt_not_le (a b : number) : gt a b = true -> le a b = false.
Proof.
  unfold le, gt. destruct (JS.compare a b) as [[]|]; intros H; congruence.
Qed.

Lemma NaN_not_gt (b : number) : gt NaN b = false.
Proof. reflexivity. Qed.

Lemma isInteger_of_Z (z : Z) : isInteger (of_Z z) = true.
Proof.
  unfold isInteger, of_Z, inject_Z. simpl. rewrite Z.mod_1_r. reflexivity.
Qed.

(** *** The store *)

Lemma add_written_nil (w : world) : add_written [] w = w.
Proof.
  destruct w. unfold add_written, set_written. simpl. now rewrite app_nil_r.
Qed.

Lemma add_written_app (a b : list (stream * string)) (w : world) :
  add_written b (add_written a w) = add_written (a ++ b) w.
Proof.
  destruct w. unfold add_written, set_written. simpl. now rewrite app_assoc.
Qed.

Lemma received_add_written (s : stream) (calls : list (stream * string)) (w : world) :
  received s (add_written calls w)
  = received s w ++ List.map snd (List.filter (to_stream s) calls).
Proof.
  unfold received, add_written. simpl.
  now rewrite List.filter_app, List.map_app.
Qed.

(** *** The flush, call by call *)

Section Flush.

Context {P : Platform}.

Lemma attempted_app (beh : stream -> behaviour) (a b : list (stream * string)) :
  attempted beh (a ++ b)
  = match attempted beh a with
    | (tr, Some s) => (tr, Some s)
    | (tr, None) => let (tr', failed) := attempted beh b in (tr ++ tr', failed)
    end.
Proof.
  induction a as [|[s text] a IH]; simpl.
  - now destruct (attempted beh b).
  - destruct (beh s); try reflexivity;
      rewrite IH; destruct (attempted beh a) as [tr [f|]]; try reflexivity;
      now destruct (attempted beh b).
Qed.

Lemma attempted_no_throw (beh : stream -> behaviour) (calls : list (stream * string)) :
  (forall c, In c calls -> beh (fst c) <> Throws) ->
  attempted beh calls = (calls, None).
Proof.
  induction calls as [|[s text] calls IH]; simpl; intros H; [reflexivity|].
  rewrite IH by (intros c Hc; apply H; now right).
  specialize (H (s, text) (or_introl eq_refl)). simpl in H.
  now destruct (beh s).
Qed.

Lemma fan_out_cons (s : stream) (lv : list number) (entries : StreamMap)
    (messageLevel : number) (text : string) :
  fan_out ((s, lv) :: entries) messageLevel text
  = if Set_has lv messageLevel
    then (s, text) :: fan_out entries messageLevel text
    else fan_out entries messageLevel text.
Proof.
  unfold fan_out, accepting. simpl. now destruct (Set_has lv messageLevel).
Qed.

Lemma write_entries_spec (entries : StreamMap) (messageLevel : number)
    (text : string) (w : world) :
  write_entries entries messageLevel text w
  = let (tr, failed) :=
      attempted (behaviour_of w) (fan_out entries messageLevel text) in
    (outcome failed, add_written tr w).
Proof.
  revert w. induction entries as [|[s lv] entries IH]; intros w.
  - simpl. unfold ret. now rewrite add_written_nil.
  - rewrite fan_out_cons. simpl. unfold bind.
    destruct (Set_has lv messageLevel).
    + unfold stream_write. simpl.
      destruct (behaviour_of w s) eqn:Hb; try reflexivity;
        rewrite IH; simpl;
        destruct (attempted (behaviour_of w) (fan_out entries messageLevel text))
          as [tr failed];
        now rewrite (add_written_app [(s, text)] tr w).
    + unfold ret. apply IH.
Qed.

Lemma planned_cons (entries : StreamMap) (messageLevel : number)
    (text : string) (texts : list string) :
  planned entries messageLevel (text :: texts)
  = fan_out entries messageLevel text ++ planned entries messageLevel texts.
Proof. reflexivity. Qed.

Lemma write_lines_spec (this : loc) (lg : Logger) (entries : StreamMap)
    (prefix : string) (messageLevel : number) (lines : list string) :
  forall (sep : string) (w : world),
    loggers w !! this = Some lg ->
    maps w !! __streams lg = Some entries ->
    write_lines this prefix sep messageLevel lines w
    = let (tr, failed) :=
        attempted (behaviour_of w)
                  (planned entries messageLevel (marked_from prefix sep lines)) in
      (outcome failed, add_written tr w).
Proof.
  induction lines as [|line rest IH]; intros sep w Hlg Hmap.
  - simpl. unfold ret. now rewrite add_written_nil.
  - simpl write_lines. unfold bind, get_logger, get_map.
    rewrite Hlg, Hmap, write_entries_spec.
    assert (Hm : marked_from prefix sep (line :: rest)
                 = format_line prefix sep line :: marked_from prefix "   " rest).
    { simpl. f_equal. now destruct rest. }
    rewrite Hm, planned_cons, attempted_app.
    destruct (attempted (behaviour_of w)
                (fan_out entries messageLevel (format_line prefix sep line)))
      as [tr [s|]]; simpl; [reflexivity|].
    rewrite (IH "   " (add_written tr w) Hlg Hmap). simpl.
    destruct (attempted (behaviour_of w)
                (planned entries messageLevel (marked_from prefix "   " rest)))
      as [tr' failed].
    now rewrite add_written_app.
Qed.

(** [__write] makes the planned calls, in order, up to the first
    destination that raises. *)
Lemma __write_spec (this : loc) (lg : Logger) (entries : StreamMap)
    (date : Date) (instLevel messageLevel : number) (messages : list value)
    (w : world) :
  loggers w !! this = Some lg ->
  maps w !! __streams lg = Some entries ->
  __write this date instLevel messageLevel messages w
  = let (tr, failed) :=
      attempted (behaviour_of w)
        (planned entries messageLevel
           (marked_lines (prefix_of (moment_format date) (name lg) messageLevel)
                         (lines_of messages))) in
    (outcome failed, add_written tr w).
Proof.
  intros Hlg Hmap. unfold __write, bind, get_logger. rewrite Hlg.
  now rewrite (write_lines_spec this lg entries _ _ _ _ w Hlg Hmap).
Qed.

End Flush.

(** *** The registry *)

Section Registry.

Context {P : Platform}.

Lemma levels_eq :
  levels = [ ("SEVERE", of_Z 1); ("WARNING", of_Z 2); ("INFO", of_Z 3);
             ("FINE", of_Z 4); ("FINER", of_Z 5); ("FINEST", of_Z 6) ].
Proof.
  unfold levels, level_descriptors. simpl.
  now rewrite !stripColor_chalk by reflexivity.
Qed.

Lemma levels_at_eq (key : string) :
  levels_at key
  = match List.find (fun p => String.eqb (fst p) key)
            [ ("SEVERE", of_Z 1); ("WARNING", of_Z 2); ("INFO", of_Z 3);
              ("FINE", of_Z 4); ("FINER", of_Z 5); ("FINEST", of_Z 6) ] with
    | Some p => snd p
    | None => NaN
    end.
Proof.
  unfold levels_at, levels_get. rewrite levels_eq.
  now destruct (List.find _ _).
Qed.

Lemma levels_WARNING : levels_at "WARNING" = of_Z 2.
Proof. now rewrite levels_at_eq. Qed.

Lemma levelsList_eq :
  levelsList = [of_Z 1; of_Z 2; of_Z 3; of_Z 4; of_Z 5; of_Z 6].
Proof.
  unfold levelsList, Object_keys. rewrite levels_eq. simpl.
  now rewrite !levels_at_eq.
Qed.

End Registry.

(** *** The claims *)

(** C1.  A call to [log] at a rank greater than the instance's threshold
    returns with the world unchanged: nothing written, nothing queued.
    A call at a rank less than or equal to the threshold queues exactly
    one task, which captures the instance, the time, the threshold and
    the arguments, and returns with nothing written.  Read with the
    threshold named [L2]: every [L1 <= L2] is accepted and every rank
    greater than [L2] is rejected. *)
Theorem log_filters_by_threshold (this : loc) (lg : Logger) (w : world)
    (parts : list value) :
  loggers w !! this = Some lg ->
  (forall L : number,
      gt L (__level lg) = true -> log this L parts w = (Return tt, w))
  /\ (forall L : number,
      le L (__level lg) = true ->
      let t := mkTask this (clock w) (__level lg) (L, parts) in
      log this L parts w = (Return tt, set_immediates (fun q => q ++ [t]) w)
      /\ immediates (snd (log this L parts w)) = immediates w ++ [t]
      /\ written (snd (log this L parts w)) = written w)
  /\ (forall L1 L2 L3 : number,
      __level lg = L2 -> le L1 L2 = true -> gt L3 L2 = true ->
      immediates (snd (log this L1 parts w))
      = immediates w ++ [mkTask this (clock w) L2 (L1, parts)]
      /\ log this L3 parts w = (Return tt, w)).
Proof.
  intros Hlg.
  assert (Hrej : forall L, gt L (__level lg) = true ->
                           log this L parts w = (Return tt, w)).
  { intros L HL. unfold log, bind, new_Date, getLevel, get_logger, bind, ret.
    now rewrite Hlg, HL. }
  assert (Hacc : forall L, le L (__level lg) = true ->
            log this L parts w
            = (Return tt,
               set_immediates
                 (fun q => q ++ [mkTask this (clock w) (__level lg) (L, parts)]) w)).
  { intros L HL. apply le_not_gt in HL.
    unfold log, bind, new_Date, getLevel, get_logger, bind, ret.
    now rewrite Hlg, HL, Hlg. }
  split; [exact Hrej|]. split.
  - intros L HL t. subst t. now rewrite (Hacc L HL).
  - intros L1 L2 L3 <- H1 H3. split; [|now apply Hrej].
    now rewrite (Hacc L1 H1).
Qed.

Lemma log_filters_by_threshold_witness :
  loggers Sample.svc_world !! 0%nat = Some Sample.svc
  /\ log 0%nat (of_Z 4) [VString "x"] Sample.svc_world
     = (Return tt, Sample.svc_world)
  /\ immediates (snd (log 0%nat (of_Z 2) [VString "x"] Sample.svc_world))
     = [mkTask 0%nat 1446523200000 (of_Z 3) (of_Z 2, [VString "x"])].
Proof.
  pose proof (log_filters_by_threshold 0%nat Sample.svc Sample.svc_world
                [VString "x"] eq_refl) as [Hrej [Hacc _]].
  split; [reflexivity|]. split.
  - apply Hrej. reflexivity.
  - destruct (Hacc (of_Z 2) eq_refl) as [_ [Hq _]]. exact Hq.
Defined.

(** The [level] setter, case by case. *)
Lemma setLevel_integer (this : loc) (lg : Logger) (w : world) (v : value) :
  loggers w !! this = Some lg ->
  isInteger (Number v) = true ->
  setLevel this v w
  = (Return tt,
     set_loggers (insert this (mkLogger (name lg) (Number v) (__streams lg))) w).
Proof.
  intros Hlg Hint. unfold setLevel. rewrite Hint. simpl.
  unfold bind, get_logger. now rewrite Hlg.
Qed.

Lemma setLevel_invalid (this : loc) (w : world) (v : value) :
  isInteger (Number v) = false ->
  setLevel this v w = (Raise invalid_level, w).
Proof. intros Hint. unfold setLevel. rewrite Hint. reflexivity. Qed.

Lemma not_integer_cases (n : number) :
  isInteger n = false
  <-> n = NaN \/ n = PosInf \/ n = NegInf
      \/ exists q, n = Fin q /\ Qnum q mod Zpos (Qden q) <> 0.
Proof.
  split.
  - destruct n as [| | |q]; simpl; intros H; auto.
    right; right; right. exists q. split; [reflexivity|].
    now apply Z.eqb_neq.
  - intros [->|[->|[->|[q [-> Hq]]]]]; simpl; try reflexivity.
    now apply Z.eqb_neq.
Qed.

Lemma set_streams_spec (this : loc) (lg : Logger) (m : loc) (w : world) :
  loggers w !! this = Some lg ->
  set_streams this m w
  = (Return tt,
     set_loggers (insert this (mkLogger (name lg) (__level lg) m)) w).
Proof. intros Hlg. unfold set_streams, bind, get_logger. now rewrite Hlg. Qed.

(** The last step of the constructor: [options.streams], when given,
    replaces the default table. *)
Lemma constructor_tail (this : loc) (lg : Logger) (opts : option Options)
    (w : world) :
  loggers w !! this = Some lg ->
  exists w' st,
    (let* _ := match streams match opts with
                               | None => mkOptions None
                               | Some o => o
                               end with
               | Some m => set_streams this m
               | None => ret tt
               end in
     ret this) w = (Return this, w')
    /\ loggers w' !! this = Some (mkLogger (name lg) (__level lg) st)
    /\ forall l, l <> this -> loggers w' !! l = loggers w !! l.
Proof.
  intros Hlg. unfold bind.
  destruct (streams _) as [m|].
  - rewrite (set_streams_spec this lg m w Hlg). unfold ret.
    eexists _, m. split; [reflexivity|]. simpl. split.
    + apply lookup_insert_eq.
    + intros l Hl. now apply lookup_insert_ne.
  - unfold ret. exists w, (__streams lg). split; [reflexivity|].
    split; [now destruct lg|reflexivity].
Qed.

(** What the constructor leaves in the store. *)
Lemma new_Logger_spec {P : Platform} (nm : option string) (v : value) (opts : option Options)
    (w0 : world) :
  let this := fresh (dom (loggers w0) : gset loc) in
  (forall l lg0, loggers w0 !! l = Some lg0 ->
                 loggers (snd (new_Logger nm v opts w0)) !! l = Some lg0)
  /\ (if is_nullish v || isInteger (Number v)
      then fst (new_Logger nm v opts w0) = Return this
           /\ exists st,
               loggers (snd (new_Logger nm v opts w0)) !! this
               = Some (mkLogger nm (if is_nullish v then of_Z 2 else Number v) st)
      else fst (new_Logger nm v opts w0) = Raise invalid_level).
Proof.
  intros this.
  assert (Hfresh : forall l lg0, loggers w0 !! l = Some lg0 -> l <> this).
  { intros l lg0 Hl Heq. apply (is_fresh (dom (loggers w0) : gset loc)).
    apply elem_of_dom. exists lg0. fold this. rewrite <- Heq. exact Hl. }
  set (lm := fresh (dom (maps w0) : gset loc)).
  set (lg := mkLogger nm (of_Z 2) lm).
  set (wB := set_loggers (insert this lg) (set_maps (insert lm default_streams) w0)).
  assert (HB : loggers wB !! this = Some lg) by apply lookup_insert_eq.
  assert (HBother : forall l, l <> this -> loggers wB !! l = loggers w0 !! l).
  { intros l Hl. unfold wB. simpl. now apply lookup_insert_ne. }
  assert (Hunfold : new_Logger nm v opts w0
    = (let* _ := (if negb (is_nullish v) then setLevel this v else ret tt) in
       let* _ := match streams match opts with
                                 | None => mkOptions None
                                 | Some o => o
                                 end with
                 | Some m => set_streams this m
                 | None => ret tt
                 end in
       ret this) wB).
  { unfold new_Logger, bind at 1 2, alloc_map, alloc_logger. simpl.
    now rewrite levels_WARNING. }
  assert (Hres : exists w',
    (forall l, l <> this -> loggers w' !! l = loggers w0 !! l)
    /\ if is_nullish v || isInteger (Number v)
       then new_Logger nm v opts w0 = (Return this, w')
            /\ exists st, loggers w' !! this
                 = Some (mkLogger nm (if is_nullish v then of_Z 2 else Number v) st)
       else new_Logger nm v opts w0 = (Raise invalid_level, w')).
  { destruct (is_nullish v) eqn:Hnull; cbn [negb orb] in *.
    - rewrite Hunfold. unfold bind at 1. unfold ret at 1. cbv beta iota.
      destruct (constructor_tail this lg opts wB HB)
        as (w' & st & -> & Hthis & Hother).
      exists w'. split.
      + intros l Hl. now rewrite Hother, HBother.
      + split; [reflexivity|]. now exists st.
    - destruct (isInteger (Number v)) eqn:Hint;
        rewrite Hunfold; unfold bind at 1.
      + rewrite (setLevel_integer this lg wB v HB Hint).
        set (wC := set_loggers _ wB).
        assert (HC : loggers wC !! this = Some (mkLogger nm (Number v) lm))
          by apply lookup_insert_eq.
        destruct (constructor_tail this _ opts wC HC)
          as (w' & st & -> & Hthis & Hother).
        exists w'. split.
        * intros l Hl. rewrite Hother by exact Hl. unfold wC. simpl.
          rewrite lookup_insert_ne by congruence. now apply HBother.
        * split; [reflexivity|]. now exists st.
      + rewrite (setLevel_invalid this wB v Hint). exists wB.
        split; [exact HBother|reflexivity]. }
  destruct Hres as (w' & Hother & Hres).
  destruct (is_nullish v || isInteger (Number v)).
  - destruct Hres as [-> Hthis]. simpl. split; [|now split].
    intros l lg0 Hl. rewrite Hother by eauto. exact Hl.
  - rewrite Hres. simpl. split; [|reflexivity].
    intros l lg0 Hl. rewrite Hother by eauto. exact Hl.
Qed.

(** C4, as amended.  Assigning [v] to [instance.level] coerces [v]
    with [Number]; when the result is not an integer the assignment
    raises the invalid-level error and the world, the previous
    threshold included, is unchanged; otherwise the threshold becomes
    the coerced integer.  The constructor does the same with a [level]
    argument that is neither [null] nor [undefined], leaving the loggers
    that already exist as they were; with [null] or [undefined] it
    assigns nothing, raises nothing and the threshold is WARNING's
    rank. *)
Theorem threshold_assignment {P : Platform} (this : loc) (lg : Logger) (w : world) (v : value) :
  loggers w !! this = Some lg ->
  (isInteger (Number v) = false ->
   setLevel this v w = (Raise invalid_level, w))
  /\ (isInteger (Number v) = true ->
      setLevel this v w
      = (Return tt,
         set_loggers
           (insert this (mkLogger (name lg) (Number v) (__streams lg))) w))
  /\ forall (nm : option string) (opts : option Options),
      let r := new_Logger nm v opts w in
      (forall l lg0, loggers w !! l = Some lg0 ->
                     loggers (snd r) !! l = Some lg0)
      /\ (is_nullish v = false -> isInteger (Number v) = false ->
          fst r = Raise invalid_level)
      /\ (is_nullish v = false -> isInteger (Number v) = true ->
          exists new, fst r = Return new
                      /\ __level <$> loggers (snd r) !! new = Some (Number v))
      /\ (is_nullish v = true ->
          exists new, fst r = Return new
                      /\ __level <$> loggers (snd r) !! new = Some (of_Z 2)).
Proof.
  intros Hlg. split; [apply setLevel_invalid|].
  split; [now apply setLevel_integer|].
  intros nm opts r. subst r.
  destruct (new_Logger_spec nm v opts w) as [Hold Hnew].
  split; [exact Hold|].
  destruct (is_nullish v) eqn:Hnull, (isInteger (Number v)) eqn:Hint;
    cbn [orb] in Hnew; repeat split; try discriminate; intros _; try intros _.
  all: try exact Hnew.
  all: destruct Hnew as [Hr [st Hst]]; eexists; split; [exact Hr|];
    now rewrite Hst.
Qed.

Lemma threshold_assignment_witness :
  loggers Sample.svc_world !! 0%nat = Some Sample.svc
  /\ setLevel 0%nat (VString "1.5") Sample.svc_world
     = (Raise invalid_level, Sample.svc_world)
  /\ fst (new_Logger (P := Platforms.plain_platform) None (VString "1.5") None
            Sample.svc_world) = Raise invalid_level.
Proof.
  split; [reflexivity|].
  destruct (threshold_assignment (P := Platforms.plain_platform) 0%nat
              Sample.svc Sample.svc_world (VString "1.5") eq_refl)
    as [Hbad [_ Hnew]].
  split.
  - apply Hbad. reflexivity.
  - destruct (Hnew None None) as [_ [Hraise _]]. apply Hraise; reflexivity.
Defined.

(** C4, as stated, fails on the constructor: [Number(null)] is the
    integer [0], yet [new Logger('a', null)] has threshold [2]; and
    [Number(undefined)] is [NaN], yet [new Logger('a', undefined)]
    returns normally. *)
Lemma constructor_skips_null_level :
  isInteger (Number VNull) = true
  /\ Number VNull = of_Z 0
  /\ (let r := new_Logger (P := Platforms.plain_platform) (Some "a") VNull None
                 Sample.empty_world in
      fst r = Return 0%nat
      /\ __level <$> loggers (snd r) !! 0%nat = Some (of_Z 2)
      /\ __level <$> loggers (snd r) !! 0%nat <> Some (Number VNull))
  /\ isInteger (Number VUndefined) = false
  /\ fst (new_Logger (P := Platforms.plain_platform) (Some "a") VUndefined None
            Sample.empty_world) = Return 0%nat.
Proof.
  split; [reflexivity|]. split; [reflexivity|]. split.
  - cbv zeta. split; [reflexivity|]. split; [reflexivity|].
    vm_compute. discriminate.
  - split; reflexivity.
Qed.

(** C8.  The setter accepts whatever [Number] turns into an integer:
    the empty string, [null] and [false] set the threshold to [0],
    [true] sets it to [1], the string ["3"] sets it to [3], none of them
    raising.  For every value, the setter either returns or raises the
    invalid-level error, and it raises exactly when [Number(v)] is
    [NaN], infinite, or has a fractional part. *)
Theorem setter_accepts_integer_coercions (this : loc) (lg : Logger) (w : world) :
  loggers w !! this = Some lg ->
  let assigned (n : number) : result unit * world :=
    (Return tt,
     set_loggers (insert this (mkLogger (name lg) n (__streams lg))) w) in
  setLevel this (VString "") w = assigned (of_Z 0)
  /\ setLevel this VNull w = assigned (of_Z 0)
  /\ setLevel this (VBool false) w = assigned (of_Z 0)
  /\ setLevel this (VBool true) w = assigned (of_Z 1)
  /\ setLevel this (VString "3") w = assigned (of_Z 3)
  /\ forall v : value,
      (isInteger (Number v) = true -> setLevel this v w = assigned (Number v))
      /\ (fst (setLevel this v w) = Return tt
          \/ fst (setLevel this v w) = Raise invalid_level)
      /\ (fst (setLevel this v w) = Raise invalid_level
          <-> Number v = NaN \/ Number v = PosInf \/ Number v = NegInf
              \/ exists q, Number v = Fin q /\ Qnum q mod Zpos (Qden q) <> 0).
Proof.
  intros Hlg assigned. subst assigned.
  repeat split;
    try (rewrite (setLevel_integer this lg w _ Hlg) by reflexivity; reflexivity).
  - now apply setLevel_integer.
  - destruct (isInteger (Number v)) eqn:Hint.
    + left. now rewrite (setLevel_integer this lg w v Hlg Hint).
    + right. now rewrite (setLevel_invalid this w v Hint).
  - intros Hraise. apply not_integer_cases.
    destruct (isInteger (Number v)) eqn:Hint; [|reflexivity].
    rewrite (setLevel_integer this lg w v Hlg Hint) in Hraise. discriminate.
  - intros Hcases. apply not_integer_cases in Hcases.
    now rewrite (setLevel_invalid this w v Hcases).
Qed.

Lemma setter_accepts_integer_coercions_witness :
  loggers Sample.svc_world !! 0%nat = Some Sample.svc
  /\ __level <$> loggers (snd (setLevel 0%nat (VString "") Sample.svc_world)) !! 0%nat
     = Some (of_Z 0)
  /\ __level <$> loggers (snd (setLevel 0%nat (VBool true) Sample.svc_world)) !! 0%nat
     = Some (of_Z 1)
  /\ __level <$> loggers (snd (setLevel 0%nat (VString " 0x10 ") Sample.svc_world)) !! 0%nat
     = Some (of_Z 16).
Proof.
  split; [reflexivity|].
  destruct (setter_accepts_integer_coercions 0%nat Sample.svc Sample.svc_world
              eq_refl) as (Hempty & _ & _ & Htrue & _ & Hall).
  split; [now rewrite Hempty|]. split; [now rewrite Htrue|].
  destruct (Hall (VString " 0x10 ")) as [Hint _].
  now rewrite Hint.
Defined.

(** C7.  The names of the per-level methods are the keys of [levels]
    in lower case, namely [severe], [warning], [info], [fine], [finer]
    and [finest]; and the method of each level, applied to [args],
    is [log] at that level's rank applied to [args]. *)
Theorem level_methods_mirror_levels {P : Platform} :
  List.map fst level_methods = List.map toLowerCase (Object_keys levels)
  /\ List.map fst level_methods
     = ["severe"; "warning"; "info"; "fine"; "finer"; "finest"]
  /\ Forall2
       (fun (level : string * number)
            (method : string * (loc -> list value -> M unit)) =>
          fst method = toLowerCase (fst level)
          /\ forall this args w,
              snd method this args w = log this (snd level) args w)
       levels level_methods.
Proof.
  split; [|split].
  - unfold level_methods. rewrite List.map_map. reflexivity.
  - unfold level_methods, Object_keys. rewrite levels_eq. reflexivity.
  - unfold level_methods, Object_keys. rewrite levels_eq. simpl.
    repeat constructor; simpl; intros; now rewrite levels_at_eq.
Qed.

(** *** What each stream receives *)

Lemma fan_out_rejected (s : stream) (entries : StreamMap) (messageLevel : number)
    (text : string) :
  (forall ls, In (s, ls) entries -> Set_has ls messageLevel = false) ->
  List.filter (to_stream s) (fan_out entries messageLevel text) = [].
Proof.
  induction entries as [|[k lv] entries IH]; intros H; [reflexivity|].
  rewrite fan_out_cons.
  assert (IH' : List.filter (to_stream s)
                  (fan_out entries messageLevel text) = []).
  { apply IH. intros ls Hls. apply H. now right. }
  destruct (Set_has lv messageLevel) eqn:Hhas; [|exact IH'].
  simpl. unfold to_stream at 1. simpl. destruct (Nat.eqb k s) eqn:Hk; [|exact IH'].
  apply Nat.eqb_eq in Hk. subst k.
  rewrite (H lv (or_introl eq_refl)) in Hhas. discriminate.
Qed.

Lemma fan_out_absent (s : stream) (entries : StreamMap) (messageLevel : number)
    (text : string) :
  ~ In s (List.map fst entries) ->
  List.filter (to_stream s) (fan_out entries messageLevel text) = [].
Proof.
  intros H. apply fan_out_rejected. intros ls Hls. exfalso. apply H.
  apply List.in_map_iff. now exists (s, ls).
Qed.

Lemma fan_out_accepted (s : stream) (ls : list number) (entries : StreamMap)
    (messageLevel : number) (text : string) :
  List.NoDup (List.map fst entries) ->
  In (s, ls) entries ->
  Set_has ls messageLevel = true ->
  List.filter (to_stream s) (fan_out entries messageLevel text)
  = [(s, text)].
Proof.
  induction entries as [|[k lv] entries IH]; intros Hnd Hin Hhas; [easy|].
  simpl in Hnd. apply List.NoDup_cons_iff in Hnd as [Hk Hnd].
  rewrite fan_out_cons. destruct Hin as [Heq|Hin].
  - injection Heq as -> ->. rewrite Hhas. simpl. unfold to_stream at 1. simpl.
    rewrite Nat.eqb_refl. now rewrite fan_out_absent.
  - assert (Hne : Nat.eqb k s = false).
    { apply Nat.eqb_neq. intros ->. apply Hk.
      apply List.in_map_iff. now exists (s, ls). }
    destruct (Set_has lv messageLevel); simpl; unfold to_stream at 1; simpl;
      rewrite ?Hne; now apply IH.
Qed.

Lemma planned_accepted (s : stream) (ls : list number) (entries : StreamMap)
    (messageLevel : number) (texts : list string) :
  List.NoDup (List.map fst entries) ->
  In (s, ls) entries ->
  Set_has ls messageLevel = true ->
  List.map snd (List.filter (to_stream s)
                  (planned entries messageLevel texts))
  = texts.
Proof.
  intros Hnd Hin Hhas. induction texts as [|text texts IH]; [reflexivity|].
  rewrite planned_cons, List.filter_app, List.map_app.
  rewrite (fan_out_accepted s ls entries messageLevel text Hnd Hin Hhas).
  simpl. f_equal. exact IH.
Qed.

Lemma planned_rejected (s : stream) (entries : StreamMap) (messageLevel : number)
    (texts : list string) :
  (forall ls, In (s, ls) entries -> Set_has ls messageLevel = false) ->
  List.filter (to_stream s) (planned entries messageLevel texts) = [].
Proof.
  intros H. induction texts as [|text texts IH]; [reflexivity|].
  rewrite planned_cons, List.filter_app, fan_out_rejected by exact H.
  exact IH.
Qed.

Lemma in_fan_out (entries : StreamMap) (messageLevel : number) (text : string)
    (c : stream * string) :
  In c (fan_out entries messageLevel text)
  <-> snd c = text
      /\ exists ls, In (fst c, ls) entries /\ Set_has ls messageLevel = true.
Proof.
  unfold fan_out, accepting. rewrite List.in_map_iff. split.
  - intros [s [<- Hs]]. split; [reflexivity|].
    apply List.in_map_iff in Hs as [[k lv] [<- Hk]].
    apply List.filter_In in Hk as [Hin Hhas]. now exists lv.
  - intros [Ht [ls [Hin Hhas]]]. exists (fst c). split; [now destruct c; subst|].
    apply List.in_map_iff. exists (fst c, ls). split; [reflexivity|].
    apply List.filter_In. now split.
Qed.

Lemma in_planned (entries : StreamMap) (messageLevel : number)
    (texts : list string) (c : stream * string) :
  In c (planned entries messageLevel texts)
  <-> In (snd c) texts
      /\ exists ls, In (fst c, ls) entries /\ Set_has ls messageLevel = true.
Proof.
  unfold planned. rewrite List.in_concat. split.
  - intros [l [Hl Hc]]. apply List.in_map_iff in Hl as [text [<- Ht]].
    apply in_fan_out in Hc as [<- Hls]. now split.
  - intros [Ht Hls]. exists (fan_out entries messageLevel (snd c)). split.
    + apply List.in_map_iff. now exists (snd c).
    + apply in_fan_out. now split.
Qed.

Lemma attempted_prefix (beh : stream -> behaviour) (calls : list (stream * string)) :
  exists rest, calls = fst (attempted beh calls) ++ rest.
Proof.
  induction calls as [|[s text] calls [rest IH]]; [now exists []|].
  simpl. destruct (beh s).
  - destruct (attempted beh calls) as [tr f]. exists rest. simpl in *. now f_equal.
  - destruct (attempted beh calls) as [tr f]. exists rest. simpl in *. now f_equal.
  - now exists calls.
Qed.

(** *** From the call to the flush *)

Lemma log_accepted (this : loc) (lg : Logger) (w : world) (messageLevel : number)
    (messages : list value) :
  loggers w !! this = Some lg ->
  gt messageLevel (__level lg) = false ->
  queues this messageLevel messages w
    (mkTask this (clock w) (__level lg) (messageLevel, messages)).
Proof.
  intros Hlg Hgt.
  unfold queues, log, bind, new_Date, getLevel, get_logger, bind, ret.
  now rewrite Hlg, Hgt, Hlg.
Qed.

Lemma log_rejected (this : loc) (lg : Logger) (w : world) (messageLevel : number)
    (messages : list value) :
  loggers w !! this = Some lg ->
  gt messageLevel (__level lg) = true ->
  log this messageLevel messages w = (Return tt, w).
Proof.
  intros Hlg Hgt. unfold log, bind, new_Date, getLevel, get_logger, bind, ret.
  now rewrite Hlg, Hgt.
Qed.

(** A queued task holds what the call captured, and the call passed
    the threshold. *)
Lemma queues_inv (this : loc) (lg : Logger) (w : world) (messageLevel : number)
    (messages : list value) (t : task) :
  loggers w !! this = Some lg ->
  queues this messageLevel messages w t ->
  gt messageLevel (__level lg) = false
  /\ t = mkTask this (clock w) (__level lg) (messageLevel, messages).
Proof.
  intros Hlg Hq. unfold queues in Hq.
  destruct (gt messageLevel (__level lg)) eqn:Hgt.
  - rewrite (log_rejected this lg w _ _ Hlg Hgt) in Hq.
    apply (f_equal (fun r => List.length (immediates (snd r)))) in Hq.
    simpl in Hq. rewrite List.length_app in Hq. simpl in Hq. lia.
  - split; [reflexivity|].
    rewrite (log_accepted this lg w _ _ Hlg Hgt) in Hq.
    apply (f_equal (fun r => immediates (snd r))) in Hq. simpl in Hq.
    apply List.app_inv_head in Hq. now injection Hq as <-.
Qed.

(** The flush of a call: the planned calls, made in order up to the
    first destination that raises.  The time, the rank and the parts
    are those of the call in [w]; the name and the table are those of
    the world [W] the task runs in. *)
Lemma run_queued_task {P : Platform} (this : loc) (lg : Logger) (w : world)
    (messageLevel : number) (messages : list value) (t : task)
    (W : world) (lgW : Logger) (entries : StreamMap) :
  loggers w !! this = Some lg ->
  queues this messageLevel messages w t ->
  loggers W !! this = Some lgW ->
  maps W !! __streams lgW = Some entries ->
  run_task t W
  = let (tr, failed) :=
      attempted (behaviour_of W)
        (planned entries messageLevel
           (marked_lines
              (prefix_of (moment_format (clock w)) (name lgW) messageLevel)
              (lines_of messages))) in
    (outcome failed, add_written tr W).
Proof.
  intros Hlg Hq HlgW Hmap.
  destruct (queues_inv this lg w _ _ t Hlg Hq) as [_ ->].
  unfold run_task. simpl.
  apply (__write_spec this lgW entries _ _ _ _ W HlgW Hmap).
Qed.

Lemma nothing_put_back (w : world) :
  set_immediates (fun q => [] ++ q) w = w.
Proof. now destruct w. Qed.

Lemma run_tasks_single {P : Platform} (t : task) (w : world) :
  run_tasks [t] w = run_task t w.
Proof.
  simpl. unfold ret.
  destruct (run_task t w) as [[[]|e] w']; [reflexivity|].
  now rewrite nothing_put_back.
Qed.

Lemma run_immediates_single {P : Platform} (t : task) (w : world) :
  immediates w = [t] ->
  run_immediates w = run_task t (set_immediates (fun _ => []) w).
Proof.
  intros H. unfold run_immediates. rewrite H. apply run_tasks_single.
Qed.

Lemma accepting_planned (entries : StreamMap) (messageLevel : number)
    (texts : list string) (beh : stream -> behaviour) :
  (forall s, In s (accepting entries messageLevel) -> beh s <> Throws) ->
  forall c, In c (planned entries messageLevel texts) -> beh (fst c) <> Throws.
Proof.
  intros Hbeh c Hc. apply Hbeh. apply in_planned in Hc as [_ [lv [Hc Hlv]]].
  unfold accepting. apply List.in_map_iff. exists (fst c, lv).
  split; [reflexivity|]. apply List.filter_In. now split.
Qed.



Lemma split_lf_nonempty (s : string) : (1 <= List.length (split_lf s))%nat.
Proof.
  induction s as [|c s IH]; simpl; [lia|].
  destruct (Ascii.eqb c LF); simpl; [lia|].
  destruct (split_lf s); simpl in *; lia.
Qed.

Lemma in_marked_lines (prefix text : string) (lines : list string) :
  In text (marked_lines prefix lines) ->
  exists sep line, In line lines /\ text = format_line prefix sep line.
Proof.
  destruct lines as [|first rest]; [easy|]. simpl. intros [<-|Hin].
  - exists "***", first. now split; [left|].
  - apply List.in_map_iff in Hin as [line [<- Hline]].
    exists "   ", line. now split; [right|].
Qed.

Lemma filter_prefix_nil {A} (f : A -> bool) (a b : list A) :
  List.filter f (a ++ b) = [] -> List.filter f a = [].
Proof.
  rewrite List.filter_app. intros H. now apply List.app_eq_nil in H as [H _].
Qed.

Lemma attempted_first_throw (beh : stream -> behaviour)
    (before after : list (stream * string)) (s : stream) (text : string) :
  (forall c, In c before -> beh (fst c) <> Throws) ->
  beh s = Throws ->
  attempted beh (before ++ (s, text) :: after) = (before ++ [(s, text)], Some s).
Proof.
  intros Hbefore Hs. rewrite attempted_app, (attempted_no_throw beh before Hbefore).
  simpl. now rewrite Hs.
Qed.

Lemma planned_nobody (entries : StreamMap) (messageLevel : number)
    (texts : list string) :
  accepting entries messageLevel = [] ->
  planned entries messageLevel texts = [].
Proof.
  intros H. unfold planned, fan_out. rewrite H. simpl.
  induction texts as [|text texts IH]; [reflexivity|exact IH].
Qed.




(** C3, as amended.  The routing table is read when the task runs.
    Let a call in world [w] queue the task [t], and let [t] run in a
    world [W] where the logger's table holds [entries], whatever it
    held in [w].  Every text the flush writes is a formatted line of
    the message and goes to a stream whose level set in [entries]
    contains the rank; when no accepting destination raises, every
    formatted line goes to every such stream.  A stream whose set is
    exactly INFO receives nothing for a call at another rank, SEVERE,
    WARNING, FINE, FINER and FINEST included, although the threshold
    accepted the call. *)
Theorem routing_decided_at_flush {P : Platform} (this : loc) (lg : Logger)
    (w : world) (messageLevel : number) (messages : list value) (t : task)
    (W : world) (lgW : Logger) (entries : StreamMap) :
  loggers w !! this = Some lg ->
  queues this messageLevel messages w t ->
  loggers W !! this = Some lgW ->
  maps W !! __streams lgW = Some entries ->
  let flushed := snd (run_task t W) in
  let texts :=
    marked_lines (prefix_of (moment_format (clock w)) (name lgW) messageLevel)
                 (lines_of messages) in
  (exists tr,
      written flushed = written W ++ tr
      /\ (forall s text,
             In (s, text) tr ->
             In text texts
             /\ exists ls, In (s, ls) entries /\ Set_has ls messageLevel = true)
      /\ ((forall s', In s' (accepting entries messageLevel) ->
                      behaviour_of W s' <> Throws) ->
          forall s ls text,
            In (s, ls) entries -> Set_has ls messageLevel = true ->
            In text texts -> In (s, text) tr))
  /\ (forall s,
         (forall ls, In (s, ls) entries -> ls = [of_Z 3]) ->
         In messageLevel [of_Z 1; of_Z 2; of_Z 4; of_Z 5; of_Z 6]
         \/ SameValueZero messageLevel (of_Z 3) = false ->
         received s flushed = received s W).
Proof.
  intros Hlg Hq HlgW Hmap flushed texts.
  pose proof (run_queued_task this lg w _ _ t W lgW entries Hlg Hq HlgW Hmap)
    as Hrun. fold texts in Hrun.
  destruct (attempted_prefix (behaviour_of W) (planned entries messageLevel texts))
    as [rest Hrest].
  assert (Hw : written flushed
               = written W
                 ++ fst (attempted (behaviour_of W)
                           (planned entries messageLevel texts))).
  { unfold flushed. rewrite Hrun. now destruct (attempted _ _). }
  split.
  - exists (fst (attempted (behaviour_of W) (planned entries messageLevel texts))).
    split; [exact Hw|]. split.
    + intros s text Hin.
      assert (Hp : In (s, text) (planned entries messageLevel texts)).
      { rewrite Hrest. apply List.in_or_app. now left. }
      now apply in_planned in Hp.
    + intros Hbeh s ls text Hin Hhas Htext.
      rewrite attempted_no_throw by now apply accepting_planned.
      apply in_planned. split; [exact Htext|]. now exists ls.
  - intros s Hinfo Hrank.
    assert (Hsvz : SameValueZero messageLevel (of_Z 3) = false).
    { destruct Hrank as [Hrank|Hrank]; [|exact Hrank].
      simpl in Hrank.
      destruct Hrank as [<-|[<-|[<-|[<-|[<-|[]]]]]]; reflexivity. }
    unfold received. rewrite Hw, List.filter_app, List.map_app.
    rewrite (filter_prefix_nil (to_stream s)
               (fst (attempted (behaviour_of W)
                       (planned entries messageLevel texts))) rest).
    + simpl. now rewrite app_nil_r.
    + rewrite <- Hrest. apply planned_rejected.
      intros ls Hls. rewrite (Hinfo ls Hls). simpl. now rewrite Hsvz.
Qed.

Lemma routing_decided_at_flush_witness :
  received 2%nat
    (snd (run_immediates (P := Platforms.plain_platform)
            (snd (log 0%nat (of_Z 1) [VString "x"]
                    (Sample.routed_world Sample.healthy)))))
  = []
  /\ In (2%nat, "[2015-11-03 04:00:00][app][SEVERE] *** x" +:+ newline)
       (written
          (snd (run_immediates (P := Platforms.plain_platform)
                  (snd (Map_set 7%nat 2%nat [of_Z 1]
                          (snd (log 0%nat (of_Z 1) [VString "x"]
                                  (Sample.routed_world Sample.healthy)))))))).
Proof.
  split.
  - destruct (routing_decided_at_flush (P := Platforms.plain_platform)
                0%nat Sample.app (Sample.routed_world Sample.healthy)
                (of_Z 1) [VString "x"]
                (mkTask 0%nat 1446523200000 (of_Z 6) (of_Z 1, [VString "x"]))
                (Sample.routed_world Sample.healthy) Sample.app Sample.two_streams
                eq_refl eq_refl eq_refl eq_refl) as [_ H].
    refine (H 2%nat _ _).
    + intros ls [Hls|[Hls|[]]]; [discriminate Hls|]. now injection Hls as <-.
    + right. reflexivity.
  - destruct (routing_decided_at_flush (P := Platforms.plain_platform)
                0%nat Sample.app (Sample.routed_world Sample.healthy)
                (of_Z 1) [VString "x"]
                (mkTask 0%nat 1446523200000 (of_Z 6) (of_Z 1, [VString "x"]))
                (snd (Map_set 7%nat 2%nat [of_Z 1]
                        (Sample.routed_world Sample.healthy)))
                Sample.app
                [(1%nat, [of_Z 1; of_Z 2; of_Z 3]); (2%nat, [of_Z 1])]
                eq_refl eq_refl eq_refl eq_refl) as [(tr & Hw & _ & Hif) _].
    change (In (2%nat, "[2015-11-03 04:00:00][app][SEVERE] *** x" +:+ newline)
              (written
                 (snd (run_task (P := Platforms.plain_platform)
                         (mkTask 0%nat 1446523200000 (of_Z 6)
                            (of_Z 1, [VString "x"]))
                         (snd (Map_set 7%nat 2%nat [of_Z 1]
                                 (Sample.routed_world Sample.healthy))))))).
    rewrite Hw. apply List.in_or_app. right.
    apply (Hif (fun s' _ => ltac:(discriminate)) 2%nat [of_Z 1]).
    + right. now left.
    + reflexivity.
    + now left.
Defined.

(** C3, as stated, fails in its "if" half, at call time and at flush
    time alike: stream [2] is made to take SEVERE between the call and
    the flush, so its set contains the rank when the task runs, but
    stream [1] raises first and the line is never written to it. *)
Lemma accepted_rank_not_written :
  let called := snd (log 0%nat (of_Z 1) [VString "x"]
                       (Sample.routed_world Sample.first_raises)) in
  let changed := snd (Map_set 7%nat 2%nat [of_Z 1] called) in
  let r := run_immediates (P := Platforms.plain_platform) changed in
  maps changed !! 7%nat
  = Some [(1%nat, [of_Z 1; of_Z 2; of_Z 3]); (2%nat, [of_Z 1])]
  /\ Set_has [of_Z 1] (of_Z 1) = true
  /\ fst r = Raise (WriteError 1%nat)
  /\ written (snd r)
     = [(1%nat, "[2015-11-03 04:00:00][app][SEVERE] *** x" +:+ newline)]
  /\ ~ In (2%nat, "[2015-11-03 04:00:00][app][SEVERE] *** x" +:+ newline)
          (written (snd r)).
Proof.
  cbv zeta. split; [reflexivity|]. split; [reflexivity|].
  split; [reflexivity|]. split; [reflexivity|].
  intros [H|[]]. discriminate H.
Qed.

(** A table changed between the call and the flush: stream [2] takes
    INFO only when [log] is called at SEVERE, and is made to take
    SEVERE before the task runs.  It receives the message; left alone
    it receives nothing. *)
Example table_change_before_flush :
  let called := snd (log 0%nat (of_Z 1) [VString "x"]
                       (Sample.routed_world Sample.healthy)) in
  received 2%nat (snd (run_immediates (P := Platforms.plain_platform) called)) = []
  /\ received 2%nat
       (snd (run_immediates (P := Platforms.plain_platform)
               (snd (Map_set 7%nat 2%nat [of_Z 1] called))))
     = ["[2015-11-03 04:00:00][app][SEVERE] *** x" +:+ newline].
Proof. split; reflexivity. Qed.

(** C5, as amended.  In the flush of an accepted call, a destination
    whose [write] fails without raising does not stop anything: as long
    as no accepting destination raises, every planned write, to every
    accepting destination and for every line, is attempted exactly
    once and in order.  A [write] that raises is not retried either,
    but the exception leaves the flush: the calls planned before it
    and the raising call itself are the only ones made. *)
Theorem write_failures_in_a_flush {P : Platform} (this : loc) (lg : Logger)
    (w : world) (messageLevel : number) (messages : list value) (t : task)
    (W : world) (lgW : Logger) (entries : StreamMap) :
  loggers w !! this = Some lg ->
  queues this messageLevel messages w t ->
  loggers W !! this = Some lgW ->
  maps W !! __streams lgW = Some entries ->
  let calls :=
    planned entries messageLevel
      (marked_lines (prefix_of (moment_format (clock w)) (name lgW) messageLevel)
                    (lines_of messages)) in
  let r := run_task t W in
  ((forall s, In s (accepting entries messageLevel) -> behaviour_of W s <> Throws) ->
   fst r = Return tt /\ written (snd r) = written W ++ calls)
  /\ (forall before s text after,
         calls = before ++ (s, text) :: after ->
         (forall c, In c before -> behaviour_of W (fst c) <> Throws) ->
         behaviour_of W s = Throws ->
         fst r = Raise (WriteError s)
         /\ written (snd r) = written W ++ before ++ [(s, text)]).
Proof.
  intros Hlg Hq HlgW Hmap calls r.
  assert (Hr : r = let (tr, failed) := attempted (behaviour_of W) calls in
                   (outcome failed, add_written tr W)).
  { apply (run_queued_task this lg w _ _ t W lgW entries Hlg Hq HlgW Hmap). }
  split.
  - intros Hbeh.
    rewrite Hr, attempted_no_throw by now apply accepting_planned.
    now split.
  - intros before s text after Hcalls Hbefore Hs.
    rewrite Hr, Hcalls, (attempted_first_throw _ _ _ _ _ Hbefore Hs).
    now split.
Qed.

Lemma write_failures_in_a_flush_witness :
  written
    (snd (run_immediates (P := Platforms.plain_platform)
            (snd (log 0%nat (of_Z 3) [VString abc]
                    (Sample.routed_world Sample.first_fails_quietly)))))
  = [ (1%nat, "[2015-11-03 04:00:00][app][INFO] *** a" +:+ newline);
      (2%nat, "[2015-11-03 04:00:00][app][INFO] *** a" +:+ newline);
      (1%nat, "[2015-11-03 04:00:00][app][INFO]     b" +:+ newline);
      (2%nat, "[2015-11-03 04:00:00][app][INFO]     b" +:+ newline);
      (1%nat, "[2015-11-03 04:00:00][app][INFO]     c" +:+ newline);
      (2%nat, "[2015-11-03 04:00:00][app][INFO]     c" +:+ newline) ].
Proof.
  destruct (write_failures_in_a_flush (P := Platforms.plain_platform)
              0%nat Sample.app (Sample.routed_world Sample.first_fails_quietly)
              (of_Z 3) [VString abc]
              (mkTask 0%nat 1446523200000 (of_Z 6) (of_Z 3, [VString abc]))
              (Sample.routed_world Sample.first_fails_quietly) Sample.app
              Sample.two_streams eq_refl eq_refl eq_refl eq_refl) as [H _].
  destruct H as [_ H].
  - intros s Hs. simpl in Hs. destruct Hs as [<-|[<-|[]]]; discriminate.
  - exact H.
Defined.

(** C5, as stated, fails: stream [1] raises on its first write, and
    stream [2], which accepts the rank, is never written to; the lines
    after the first are not attempted at all. *)
Lemma raising_destination_ends_flush :
  accepting Sample.two_streams (of_Z 3) = [1%nat; 2%nat]
  /\ let r := run_immediates (P := Platforms.plain_platform)
                (snd (log 0%nat (of_Z 3) [VString abc]
                        (Sample.routed_world Sample.first_raises))) in
     fst r = Raise (WriteError 1%nat)
     /\ written (snd r)
        = [(1%nat, "[2015-11-03 04:00:00][app][INFO] *** a" +:+ newline)]
     /\ received 2%nat (snd r) = [].
Proof. split; [reflexivity|]. cbv zeta. repeat split; reflexivity. Qed.

(** *** Worlds that differ in thresholds only *)

Lemma same_but_levels_refl (w : world) : same_but_levels w w.
Proof.
  repeat split. intros l. destruct (loggers w !! l); now constructor.
Qed.

Lemma same_but_levels_add_written (tr : list (stream * string)) (a b : world) :
  same_but_levels a b -> same_but_levels (add_written tr a) (add_written tr b).
Proof.
  intros (Hl & Hm & Hq & Hb & Hw). repeat split; simpl; try assumption.
  now rewrite Hw.
Qed.

Lemma same_but_levels_idle (a b : world) :
  same_but_levels a b ->
  same_but_levels (set_immediates (fun _ => []) a) (set_immediates (fun _ => []) b).
Proof. intros (Hl & Hm & Hq & Hb & Hw). repeat split; simpl; assumption. Qed.

Lemma setLevel_same_but_levels (this : loc) (v : value) (w : world) :
  same_but_levels w (snd (setLevel this v w)).
Proof.
  unfold setLevel. destruct (negb (isInteger (Number v))).
  - apply same_but_levels_refl.
  - unfold bind, get_logger. destruct (loggers w !! this) as [lg|] eqn:Hlg.
    + simpl. repeat split. intros l. simpl.
      destruct (decide (this = l)) as [<-|Hne].
      * rewrite lookup_insert_eq, Hlg. now constructor.
      * rewrite lookup_insert_ne by exact Hne.
        destruct (loggers w !! l); now constructor.
    + apply same_but_levels_refl.
Qed.

Lemma same_but_levels_trans (a b c : world) :
  same_but_levels a b -> same_but_levels b c -> same_but_levels a c.
Proof.
  intros (Hl & Hm & Hq & Hb & Hw) (Hl' & Hm' & Hq' & Hb' & Hw').
  repeat split; try congruence.
  intros l. specialize (Hl l). specialize (Hl' l).
  destruct Hl as [x y [Hn Hs]|]; inversion Hl' as [y' z [Hn' Hs']|]; subst;
    constructor. split; congruence.
Qed.

Lemma assign_levels_same_but_levels (changes : list (loc * value)) (w : world) :
  same_but_levels w (assign_levels changes w).
Proof.
  revert w. induction changes as [|[l v] changes IH]; intros w.
  - apply same_but_levels_refl.
  - simpl. eapply same_but_levels_trans; [|apply IH].
    apply setLevel_same_but_levels.
Qed.

Section Insensitive.

Context {P : Platform}.

Lemma level_blind_write_entries (entries : StreamMap) (messageLevel : number)
    (text : string) :
  level_blind (write_entries entries messageLevel text).
Proof.
  intros a b Hab. rewrite !write_entries_spec.
  destruct Hab as (Hl & Hm & Hq & Hb & Hw). rewrite Hb.
  destruct (attempted _ _) as [tr failed]. split; [reflexivity|].
  now apply same_but_levels_add_written.
Qed.

Lemma level_blind_write_lines (this : loc) (prefix : string)
    (messageLevel : number) (lines : list string) :
  forall sep, level_blind (write_lines this prefix sep messageLevel lines).
Proof.
  induction lines as [|line rest IH]; intros sep a b Hab.
  - now split.
  - simpl. unfold bind, get_logger, get_map.
    pose proof Hab as (Hl & Hm & Hq & Hb & Hw).
    destruct (Hl this) as [x y [Hn Hs]|]; [|now split].
    rewrite Hs, Hm. destruct (maps b !! __streams y) as [entries|]; [|now split].
    destruct (level_blind_write_entries entries messageLevel
                (format_line prefix sep line) a b Hab) as [Hr Hab'].
    destruct (write_entries _ _ _ a) as [ra a'],
             (write_entries _ _ _ b) as [rb b']. simpl in *. subst rb.
    destruct ra; [|now split]. now apply IH.
Qed.

Lemma level_blind_run_task (t : task) : level_blind (run_task t).
Proof.
  intros a b Hab. unfold run_task, __write, bind, get_logger.
  pose proof Hab as (Hl & _).
  destruct (Hl (self t)) as [x y [Hn Hs]|]; [|now split].
  rewrite Hn. now apply level_blind_write_lines.
Qed.

Lemma level_blind_run_tasks (ts : list task) : level_blind (run_tasks ts).
Proof.
  induction ts as [|t ts IH]; intros a b Hab; [now split|].
  simpl.
  destruct (level_blind_run_task t a b Hab) as [Hr Hab'].
  destruct (run_task t a) as [ra a'], (run_task t b) as [rb b'].
  simpl in *. subst rb. destruct ra; [now apply IH|].
  split; [reflexivity|]. simpl.
  destruct Hab' as (Hl & Hm & Hq & Hb & Hw).
  repeat split; simpl; try assumption. now rewrite Hq.
Qed.

Lemma level_blind_run_immediates : level_blind run_immediates.
Proof.
  intros a b Hab. unfold run_immediates.
  pose proof Hab as (_ & _ & Hq & _). rewrite Hq.
  apply level_blind_run_tasks. now apply same_but_levels_idle.
Qed.

End Insensitive.

(** C6.  Whether a call is written, and what is written for it, is
    settled when [log] is called.  Assigning values to thresholds
    after [log] has returned and before the queue is run changes
    neither the outcome of the run nor the texts written.  A call the
    threshold rejected queues nothing, and after any later assignments
    the run writes what it would have written had the call not been
    made; a call the threshold accepted is in the queue with the
    arguments and threshold of the call. *)
Theorem filtering_decided_at_call {P : Platform} (this : loc) (w : world)
    (messageLevel : number) (messages : list value)
    (changes : list (loc * value)) :
  let called := snd (log this messageLevel messages w) in
  let changed := assign_levels changes called in
  fst (run_immediates changed) = fst (run_immediates called)
  /\ written (snd (run_immediates changed)) = written (snd (run_immediates called))
  /\ forall lg,
      loggers w !! this = Some lg ->
      (gt messageLevel (__level lg) = true ->
       immediates changed = immediates w
       /\ written (snd (run_immediates changed)) = written (snd (run_immediates w)))
      /\ (gt messageLevel (__level lg) = false ->
          immediates changed
          = immediates w
            ++ [mkTask this (clock w) (__level lg) (messageLevel, messages)]).
Proof.
  intros called changed.
  assert (Hsame : same_but_levels called changed)
    by apply assign_levels_same_but_levels.
  destruct (level_blind_run_immediates called changed Hsame)
    as [Hr (_ & _ & _ & _ & Hw)].
  split; [now symmetry|]. split; [now symmetry|].
  intros lg Hlg. split; intros Hgt.
  - assert (Hcalled : called = w).
    { unfold called. now rewrite (log_rejected this lg w _ _ Hlg Hgt). }
    destruct Hsame as (_ & _ & Hq & _). split.
    + now rewrite <- Hq, Hcalled.
    + now rewrite <- Hw, Hcalled.
  - destruct Hsame as (_ & _ & Hq & _). rewrite <- Hq. unfold called.
    now rewrite (log_accepted this lg w _ _ Hlg Hgt).
Qed.

Lemma filtering_decided_at_call_witness :
  loggers Sample.svc_world !! 0%nat = Some Sample.svc
  /\ written
       (snd (run_immediates (P := Platforms.plain_platform)
               (snd (setLevel 0%nat (VNumber (of_Z 6))
                       (snd (log 0%nat (of_Z 4) [VString "x"]
                               Sample.svc_world))))))
     = []
  /\ written
       (snd (run_immediates (P := Platforms.plain_platform)
               (snd (setLevel 0%nat (VNumber (of_Z 1))
                       (snd (log 0%nat (of_Z 2) [VString "x"]
                               Sample.svc_world))))))
     = [(0%nat, "[2015-11-03 04:00:00][svc][WARNING] *** x" +:+ newline)].
Proof.
  split; [reflexivity|]. split.
  - destruct (filtering_decided_at_call (P := Platforms.plain_platform)
                0%nat Sample.svc_world (of_Z 4) [VString "x"]
                [(0%nat, VNumber (of_Z 6))])
      as (_ & _ & H).
    destruct (H Sample.svc eq_refl) as [Hrej _].
    destruct (Hrej eq_refl) as [_ Hw]. exact Hw.
  - destruct (filtering_decided_at_call (P := Platforms.plain_platform)
                0%nat Sample.svc_world (of_Z 2) [VString "x"]
                [(0%nat, VNumber (of_Z 1))])
      as (_ & Hw & _).
    exact Hw.
Defined.

(** C9.  A call at a rank that is none of [1] to [6] and is not
    greater than the threshold (a rank less than or equal to it, or
    [NaN]) passes the check and queues its task; when that task runs
    against the default routing table it writes nothing and returns:
    the default table routes standard output with exactly the six
    registered ranks, and the rank is not among them. *)
Theorem unregistered_rank_is_queued_and_dropped {P : Platform} (this : loc)
    (lg : Logger) (w : world) (r : number) (messages : list value) :
  loggers w !! this = Some lg ->
  le r (__level lg) = true \/ r = NaN ->
  (forall k : Z, 1 <= k <= 6 -> SameValueZero r (of_Z k) = false) ->
  let t := mkTask this (clock w) (__level lg) (r, messages) in
  default_streams
  = [(process_stdout, [of_Z 1; of_Z 2; of_Z 3; of_Z 4; of_Z 5; of_Z 6])]
  /\ log this r messages w
     = (Return tt, set_immediates (fun q => q ++ [t]) w)
  /\ forall (W : world) (lgW : Logger),
      loggers W !! this = Some lgW ->
      maps W !! __streams lgW = Some default_streams ->
      run_task t W = (Return tt, W).
Proof.
  intros Hlg Hle Hr t.
  assert (Hgt : gt r (__level lg) = false).
  { destruct Hle as [Hle| ->]; [now apply le_not_gt|reflexivity]. }
  assert (Hdefault : default_streams
    = [(process_stdout, [of_Z 1; of_Z 2; of_Z 3; of_Z 4; of_Z 5; of_Z 6])]).
  { unfold default_streams. now rewrite levelsList_eq. }
  pose proof (log_accepted this lg w r messages Hlg Hgt) as Hq.
  split; [exact Hdefault|]. split; [exact Hq|].
  intros W lgW HlgW Hmap.
  rewrite (run_queued_task this lg w _ _ t W lgW default_streams Hlg Hq HlgW Hmap).
  rewrite planned_nobody.
  - simpl. now rewrite add_written_nil.
  - rewrite Hdefault. unfold accepting. simpl.
    now rewrite !Hr by lia.
Qed.

Lemma unregistered_rank_is_queued_and_dropped_witness :
  run_immediates (P := Platforms.plain_platform)
    (snd (log 0%nat (of_Z 0) [VString "x"] Sample.svc_world))
  = (Return tt, Sample.svc_world)
  /\ run_immediates (P := Platforms.plain_platform)
       (snd (log 0%nat NaN [VString "x"] Sample.svc_world))
     = (Return tt, Sample.svc_world).
Proof.
  assert (H0 : forall k : Z, 1 <= k <= 6 -> SameValueZero (of_Z 0) (of_Z k) = false).
  { intros k Hk. unfold SameValueZero, JS.compare, of_Z, Qcompare. simpl.
    destruct k; try reflexivity; lia. }
  split.
  - destruct (unregistered_rank_is_queued_and_dropped
                (P := Platforms.plain_platform)
                0%nat Sample.svc Sample.svc_world (of_Z 0) [VString "x"]
                eq_refl (or_introl eq_refl) H0) as (_ & _ & H).
    exact (H Sample.svc_world Sample.svc eq_refl eq_refl).
  - destruct (unregistered_rank_is_queued_and_dropped
                (P := Platforms.plain_platform)
                0%nat Sample.svc Sample.svc_world NaN [VString "x"]
                eq_refl (or_intror eq_refl) (fun _ _ => eq_refl)) as (_ & _ & H).
    exact (H Sample.svc_world Sample.svc eq_refl eq_refl).
Defined.

(** What assigning a name leaves in the store. *)
Lemma set_name_spec (this : loc) (lg : Logger) (n : option string) (w : world) :
  loggers w !! this = Some lg ->
  set_name this n w
  = (Return tt,
     set_loggers (insert this (mkLogger n (__level lg) (__streams lg))) w).
Proof. intros Hlg. unfold set_name, bind, get_logger. now rewrite Hlg. Qed.

(** C10.  The name is read when the task runs; the time, the
    threshold, the rank and the message parts are those of the call.
    Let a call in world [w] queue the task [t].  The task holds the
    time, the threshold, the rank and the parts of the call.  Run in
    any later world [W], it makes the planned calls with the prefix
    built from the time of the call, the name the logger has in [W]
    and the rank of the call, so every text written for the call
    starts with that prefix; in particular, after
    [instance.name = n'] the name segment is that of [n'].  An absent
    name gives an empty name segment. *)
Theorem name_read_at_flush {P : Platform} (this : loc) (lg : Logger)
    (w : world) (messageLevel : number) (messages : list value) (t : task)
    (W : world) (lgW : Logger) (entries : StreamMap) (n' : option string) :
  loggers w !! this = Some lg ->
  queues this messageLevel messages w t ->
  loggers W !! this = Some lgW ->
  maps W !! __streams lgW = Some entries ->
  let timestamp := moment_format (clock w) in
  let display := match reverseLevels_get messageLevel with
                 | Some display => display
                 | None => "undefined"
                 end in
  let segment (n : option string) :=
    match n with
    | None => ""
    | Some n => chalk magenta n
    end in
  let prefix (n : option string) :=
    "[" +:+ chalk blue timestamp +:+ "][" +:+ segment n +:+ "]["
        +:+ display +:+ "]" in
  let run (n : option string) (W0 : world) :=
    let (tr, failed) :=
      attempted (behaviour_of W0)
        (planned entries messageLevel
           (marked_lines (prefix n) (lines_of messages))) in
    (outcome failed, add_written tr W0) in
  t = mkTask this (clock w) (__level lg) (messageLevel, messages)
  /\ run_task t W = run (name lgW) W
  /\ run_task t (snd (set_name this n' W)) = run n' (snd (set_name this n' W))
  /\ (forall n, exists tr,
         written (snd (run n W)) = written W ++ tr
         /\ forall s text,
             In (s, text) tr ->
             exists sep line,
               In line (lines_of messages)
               /\ text = prefix n +:+ " " +:+ sep +:+ " " +:+ line +:+ newline)
  /\ segment None = "".
Proof.
  intros Hlg Hq HlgW Hmap timestamp display segment prefix run.
  split; [now destruct (queues_inv this lg w _ _ t Hlg Hq)|].
  split; [apply (run_queued_task this lg w _ _ t W lgW entries Hlg Hq HlgW Hmap)|].
  split.
  - rewrite (set_name_spec this lgW n' W HlgW). simpl.
    apply (run_queued_task this lg w _ _ t _
             (mkLogger n' (__level lgW) (__streams lgW)) entries Hlg Hq).
    + simpl. apply lookup_insert_eq.
    + exact Hmap.
  - split; [|reflexivity]. intros n. unfold run.
    destruct (attempted_prefix (behaviour_of W)
                (planned entries messageLevel
                   (marked_lines (prefix n) (lines_of messages))))
      as [rest Hrest].
    destruct (attempted _ _) as [tr failed]. simpl in *.
    exists tr. split; [reflexivity|].
    intros s text Hin.
    assert (Hp : In (s, text)
                   (planned entries messageLevel
                      (marked_lines (prefix n) (lines_of messages)))).
    { rewrite Hrest. apply List.in_or_app. now left. }
    apply in_planned in Hp as [Hp _]. simpl in Hp.
    now apply in_marked_lines in Hp.
Qed.

Lemma name_read_at_flush_witness :
  written
    (snd (run_immediates (P := Platforms.plain_platform)
            (snd (set_name 0%nat (Some "renamed")
                    (snd (log 0%nat (of_Z 2) [VString "x"]
                            Sample.svc_world))))))
  = [(0%nat, "[2015-11-03 04:00:00][renamed][WARNING] *** x" +:+ newline)].
Proof.
  destruct (name_read_at_flush (P := Platforms.plain_platform)
              0%nat Sample.svc Sample.svc_world (of_Z 2) [VString "x"]
              (mkTask 0%nat 1446523200000 (of_Z 3) (of_Z 2, [VString "x"]))
              Sample.svc_world Sample.svc default_streams (Some "renamed")
              eq_refl eq_refl eq_refl eq_refl) as (_ & _ & H & _).
  exact (f_equal (fun r => written (snd r)) H).
Defined.

(** The same call with the name removed, the clock moved and the
    threshold lowered before the task runs: the name segment is empty,
    the time and the rank are those of the call. *)
Example absent_name_segment :
  written
    (snd (run_immediates (P := Platforms.plain_platform)
            (snd (setLevel 0%nat (VNumber (of_Z 1))
                    (set_clock 0
                       (snd (set_name 0%nat None
                               (snd (log 0%nat (of_Z 2) [VString "x"]
                                       Sample.svc_world)))))))))
  = [(0%nat, "[2015-11-03 04:00:00][][WARNING] *** x" +:+ newline)].
Proof. reflexivity. Qed.

(** ** Further properties *)

(** *** The lines of a message *)

Lemma append_cons (c : ascii) (a b : string) :
  String c a +:+ b = String c (a +:+ b).
Proof. reflexivity. Qed.

Lemma join_lf_cons (c : ascii) (l : string) (ls : list string) :
  join_lf (String c l :: ls) = String c (join_lf (l :: ls)).
Proof. destruct ls; reflexivity. Qed.

Lemma join_split_lf (s : string) : join_lf (split_lf s) = s.
Proof.
  induction s as [|c s IH]; [reflexivity|]. simpl split_lf.
  destruct (Ascii.eqb c LF) eqn:Hc.
  - apply Ascii.eqb_eq in Hc. subst c.
    destruct (split_lf s) as [|l ls] eqn:Hs.
    + pose proof (split_lf_nonempty s) as Hn. rewrite Hs in Hn. simpl in Hn. lia.
    + change (join_lf ("" :: l :: ls)) with (String LF (join_lf (l :: ls))).
      now rewrite IH.
  - destruct (split_lf s) as [|l ls] eqn:Hs.
    + pose proof (split_lf_nonempty s) as Hn. rewrite Hs in Hn. simpl in Hn. lia.
    + rewrite join_lf_cons. now rewrite IH.
Qed.

Lemma split_lf_no_lf (s : string) :
  Forall (fun l => has_char LF l = false) (split_lf s).
Proof.
  induction s as [|c s IH]; simpl; [now repeat constructor|].
  destruct (Ascii.eqb c LF) eqn:Hc; [now constructor|].
  destruct (split_lf s) as [|l ls]; [repeat constructor; simpl; now rewrite Hc|].
  inversion IH as [|? ? Hl Hls]; subst. constructor; [|exact Hls].
  simpl. now rewrite Hc.
Qed.

Lemma split_lf_keeps_absent (c : ascii) (s : string) :
  has_char c s = false ->
  Forall (fun l => has_char c l = false) (split_lf s).
Proof.
  induction s as [|a s IH]; simpl; intros H; [now repeat constructor|].
  apply orb_false_iff in H as [Ha Hs]. specialize (IH Hs).
  destruct (Ascii.eqb a LF); [now constructor|].
  destruct (split_lf s) as [|l ls]; [repeat constructor; simpl; now rewrite Ha|].
  inversion IH as [|? ? Hl Hls]; subst. constructor; [|exact Hls].
  simpl. now rewrite Ha, Hl.
Qed.

Lemma remove_cr_no_cr (s : string) : has_char CR (remove_cr s) = false.
Proof.
  induction s as [|c s IH]; [reflexivity|]. simpl.
  destruct (Ascii.eqb c CR) eqn:Hc; [exact IH|]. simpl. now rewrite Hc.
Qed.

Lemma split_lf_length (s : string) :
  List.length (split_lf s) = S (count_char LF s).
Proof.
  induction s as [|c s IH]; [reflexivity|]. simpl.
  destruct (Ascii.eqb c LF); simpl; [now rewrite IH|].
  destruct (split_lf s); simpl in *; lia.
Qed.

Lemma remove_cr_count_lf (s : string) :
  count_char LF (remove_cr s) = count_char LF s.
Proof.
  induction s as [|c s IH]; [reflexivity|]. simpl.
  destruct (Ascii.eqb c CR) eqn:Hc.
  - apply Ascii.eqb_eq in Hc. subst c. exact IH.
  - simpl. now rewrite IH.
Qed.

Lemma remove_cr_app (a b : string) :
  remove_cr (a +:+ b) = remove_cr a +:+ remove_cr b.
Proof.
  induction a as [|c a IH]; [reflexivity|].
  rewrite append_cons. simpl. destruct (Ascii.eqb c CR); [exact IH|].
  now rewrite append_cons, IH.
Qed.

Lemma split_lf_app_newline (s : string) :
  split_lf (s +:+ newline) = split_lf s ++ [""].
Proof.
  induction s as [|c s IH]; [reflexivity|].
  rewrite append_cons. simpl. rewrite IH.
  destruct (Ascii.eqb c LF); [reflexivity|].
  destruct (split_lf s) as [|l ls] eqn:Hs; [|reflexivity].
  pose proof (split_lf_nonempty s) as Hn. rewrite Hs in Hn. simpl in Hn. lia.
Qed.

(** X1.  The lines [__write] cuts a message into partition it: joined
    with newlines they give back the formatted message without its
    carriage returns, no line contains a newline or a carriage return,
    and there is one line more than the message has newlines. *)
Theorem lines_partition_the_message {P : Platform} (messages : list value) :
  join_lf (lines_of messages) = remove_cr (util_format messages)
  /\ Forall (fun l => has_char LF l = false /\ has_char CR l = false)
            (lines_of messages)
  /\ List.length (lines_of messages)
     = S (count_char LF (util_format messages)).
Proof.
  unfold lines_of. split; [apply join_split_lf|]. split.
  - pose proof (split_lf_no_lf (remove_cr (util_format messages))) as Hlf.
    pose proof (split_lf_keeps_absent CR _
                  (remove_cr_no_cr (util_format messages))) as Hcr.
    induction Hlf as [|l ls Hl Hls IH]; [constructor|].
    inversion Hcr; subst. constructor; [now split|now apply IH].
  - now rewrite split_lf_length, remove_cr_count_lf.
Qed.

(** X2.  A carriage return never breaks a line and never shows: a
    message with a carriage return anywhere is cut into the same lines
    as the message without it, so CR LF line ends and LF line ends give
    the same writes. *)
Theorem carriage_returns_vanish {P : Platform} (m1 m2 : list value)
    (a b : string) :
  util_format m1 = a +:+ String CR b ->
  util_format m2 = a +:+ b ->
  lines_of m1 = lines_of m2.
Proof.
  intros H1 H2. unfold lines_of. rewrite H1, H2, !remove_cr_app.
  simpl. reflexivity.
Qed.

Lemma carriage_returns_vanish_witness :
  lines_of (P := Platforms.plain_platform)
    [VString ("a" +:+ String CR (String LF "b"))]
  = lines_of (P := Platforms.plain_platform) [VString ("a" +:+ String LF "b")].
Proof.
  apply (carriage_returns_vanish (P := Platforms.plain_platform)
           _ _ "a" (String LF "b")); reflexivity.
Defined.

Lemma marked_lines_edges (prefix : string) :
  marked_lines prefix [""] = [prefix +:+ " *** " +:+ newline]
  /\ forall body : string,
      marked_lines prefix (split_lf (remove_cr (body +:+ newline)))
      = marked_lines prefix (split_lf (remove_cr body))
        ++ [prefix +:+ "     " +:+ newline].
Proof.
  split; [reflexivity|]. intros body.
  rewrite remove_cr_app. change (remove_cr newline) with newline.
  rewrite split_lf_app_newline.
  destruct (split_lf (remove_cr body)) as [|l ls] eqn:Hs.
  - pose proof (split_lf_nonempty (remove_cr body)) as Hn.
    rewrite Hs in Hn. simpl in Hn. lia.
  - unfold marked_lines. simpl. now rewrite List.map_app.
Qed.

(** What a stream that accepts the rank is handed by the flush of a
    call, when no accepting destination raises. *)
Lemma run_task_received {P : Platform} (this : loc) (lg : Logger) (w : world)
    (messageLevel : number) (messages : list value) (t : task)
    (W : world) (lgW : Logger) (entries : StreamMap) (s : stream)
    (ls : list number) :
  loggers w !! this = Some lg ->
  queues this messageLevel messages w t ->
  loggers W !! this = Some lgW ->
  maps W !! __streams lgW = Some entries ->
  List.NoDup (List.map fst entries) ->
  (forall s', In s' (accepting entries messageLevel) -> behaviour_of W s' <> Throws) ->
  In (s, ls) entries ->
  Set_has ls messageLevel = true ->
  received s (snd (run_task t W))
  = received s W
    ++ marked_lines (prefix_of (moment_format (clock w)) (name lgW) messageLevel)
                    (lines_of messages).
Proof.
  intros Hlg Hq HlgW Hmap Hnd Hbeh Hin Hhas.
  rewrite (run_queued_task this lg w _ _ t W lgW entries Hlg Hq HlgW Hmap).
  rewrite attempted_no_throw by now apply accepting_planned.
  simpl. rewrite received_add_written. f_equal.
  now apply (planned_accepted s ls).
Qed.

(** X3.  The edges of the line split, in a flush where no accepting
    destination raises (and the keys of the table are distinct, as
    those of a [Map] are).  A call whose formatted message is empty is
    still written: each accepting stream is handed the prefix and the
    [***] marker alone.  A message that ends in a newline has an empty
    last line: after the texts of the message without that newline,
    each accepting stream is handed the prefix and the blank marker
    alone. *)
Theorem empty_and_trailing_lines {P : Platform} (this : loc) (lg : Logger)
    (w : world) (messageLevel : number) (messages : list value) (t : task)
    (W : world) (lgW : Logger) (entries : StreamMap) (s : stream)
    (ls : list number) :
  loggers w !! this = Some lg ->
  queues this messageLevel messages w t ->
  loggers W !! this = Some lgW ->
  maps W !! __streams lgW = Some entries ->
  List.NoDup (List.map fst entries) ->
  (forall s', In s' (accepting entries messageLevel) -> behaviour_of W s' <> Throws) ->
  In (s, ls) entries ->
  Set_has ls messageLevel = true ->
  let prefix := prefix_of (moment_format (clock w)) (name lgW) messageLevel in
  (util_format messages = "" ->
   received s (snd (run_task t W))
   = received s W ++ [prefix +:+ " *** " +:+ newline])
  /\ (forall body : string,
         util_format messages = body +:+ newline ->
         received s (snd (run_task t W))
         = received s W
           ++ marked_lines prefix (split_lf (remove_cr body))
           ++ [prefix +:+ "     " +:+ newline]).
Proof.
  intros Hlg Hq HlgW Hmap Hnd Hbeh Hin Hhas prefix.
  pose proof (run_task_received this lg w _ _ t W lgW entries s ls
                Hlg Hq HlgW Hmap Hnd Hbeh Hin Hhas) as Hrun.
  fold prefix in Hrun. destruct (marked_lines_edges prefix) as [Hempty Htrail].
  split.
  - intros Hfmt. rewrite Hrun. unfold lines_of. rewrite Hfmt. now rewrite <- Hempty.
  - intros body Hfmt. rewrite Hrun. unfold lines_of. now rewrite Hfmt, Htrail.
Qed.

Lemma empty_and_trailing_lines_witness :
  received 0%nat
    (snd (run_immediates (P := Platforms.plain_platform)
            (snd (log 0%nat (of_Z 2) [] Sample.svc_world))))
  = ["[2015-11-03 04:00:00][svc][WARNING] *** " +:+ newline]
  /\ received 0%nat
       (snd (run_immediates (P := Platforms.plain_platform)
               (snd (log 0%nat (of_Z 2) [VString ("a" +:+ newline)]
                       Sample.svc_world))))
     = [ "[2015-11-03 04:00:00][svc][WARNING] *** a" +:+ newline;
         "[2015-11-03 04:00:00][svc][WARNING]     " +:+ newline ].
Proof.
  assert (Hnd : List.NoDup (List.map fst (default_streams (P := Platforms.plain_platform)))).
  { repeat (constructor; [simpl; intuition discriminate|]). constructor. }
  split.
  - destruct (empty_and_trailing_lines (P := Platforms.plain_platform)
                0%nat Sample.svc Sample.svc_world (of_Z 2) []
                (mkTask 0%nat 1446523200000 (of_Z 3) (of_Z 2, []))
                Sample.svc_world Sample.svc default_streams 0%nat
                [of_Z 1; of_Z 2; of_Z 3; of_Z 4; of_Z 5; of_Z 6]
                eq_refl eq_refl eq_refl eq_refl Hnd
                (fun s' _ => ltac:(discriminate))
                (or_introl eq_refl) eq_refl) as [H _].
    exact (H eq_refl).
  - destruct (empty_and_trailing_lines (P := Platforms.plain_platform)
                0%nat Sample.svc Sample.svc_world (of_Z 2)
                [VString ("a" +:+ newline)]
                (mkTask 0%nat 1446523200000 (of_Z 3)
                   (of_Z 2, [VString ("a" +:+ newline)]))
                Sample.svc_world Sample.svc default_streams 0%nat
                [of_Z 1; of_Z 2; of_Z 3; of_Z 4; of_Z 5; of_Z 6]
                eq_refl eq_refl eq_refl eq_refl Hnd
                (fun s' _ => ltac:(discriminate))
                (or_introl eq_refl) eq_refl) as [_ H].
    exact (H "a" eq_refl).
Defined.

(** *** The registry, both ways *)

Lemma reverseLevels_get_eq {P : Platform} (r : number) :
  reverseLevels_get r
  = if SameValueZero (of_Z 1) r then Some (chalk red "SEVERE")
    else if SameValueZero (of_Z 2) r then Some (chalk yellow "WARNING")
    else if SameValueZero (of_Z 3) r then Some (chalk blue "INFO")
    else if SameValueZero (of_Z 4) r then Some (chalk cyan "FINE")
    else if SameValueZero (of_Z 5) r then Some (chalk gray "FINER")
    else if SameValueZero (of_Z 6) r then Some (chalk gray "FINEST")
    else None.
Proof.
  unfold reverseLevels_get, reverseLevels, level_descriptors.
  cbn [List.map List.find fst snd].
  repeat (match goal with
          | |- context [SameValueZero ?a r] => destruct (SameValueZero a r)
          end; [reflexivity|]).
  reflexivity.
Qed.

(** X4.  [levels] and [reverseLevels] are inverse to each other: the
    rank [levels] gives a name is the rank under which [reverseLevels]
    holds the display name, and the display name without its colour is
    the name again.  Names and ranks are six each, all distinct. *)
Theorem registry_round_trip {P : Platform} :
  (forall key r,
      In (key, r) levels ->
      levels_get key = Some r
      /\ exists display,
          reverseLevels_get r = Some display
          /\ stripColor display = key
          /\ In (r, display) reverseLevels)
  /\ (forall r display,
         In (r, display) reverseLevels ->
         reverseLevels_get r = Some display
         /\ levels_get (stripColor display) = Some r)
  /\ List.NoDup (Object_keys levels)
  /\ List.length levels = 6%nat.
Proof.
  assert (Hrev : reverseLevels
    = [ (of_Z 1, chalk red "SEVERE"); (of_Z 2, chalk yellow "WARNING");
        (of_Z 3, chalk blue "INFO"); (of_Z 4, chalk cyan "FINE");
        (of_Z 5, chalk gray "FINER"); (of_Z 6, chalk gray "FINEST") ])
    by reflexivity.
  split; [|split; [|split]].
  - intros key r Hin. unfold levels_get. rewrite levels_eq in *.
    simpl in Hin.
    destruct Hin as [H|[H|[H|[H|[H|[H|[]]]]]]]; injection H as <- <-;
      (split; [reflexivity|]); eexists;
      (split; [rewrite reverseLevels_get_eq; reflexivity|]);
      (split; [now rewrite stripColor_chalk|]);
      rewrite Hrev; simpl; tauto.
  - intros r display Hin. rewrite Hrev in Hin. simpl in Hin.
    unfold levels_get. rewrite levels_eq.
    destruct Hin as [H|[H|[H|[H|[H|[H|[]]]]]]]; injection H as <- <-;
      (split; [rewrite reverseLevels_get_eq; reflexivity|]);
      now rewrite stripColor_chalk.
  - unfold Object_keys. rewrite levels_eq. simpl.
    repeat (constructor; [simpl; intuition discriminate|]). constructor.
  - now rewrite levels_eq.
Qed.

(** X5.  The reverse lookup misses exactly the ranks that are none of
    [1] to [6], and for those the level segment of the prefix reads
    [undefined]. *)
Theorem unregistered_rank_displays_undefined {P : Platform} (r : number)
    (timestamp : string) (nm : option string) :
  (reverseLevels_get r = None
   <-> forall k : Z, 1 <= k <= 6 -> SameValueZero (of_Z k) r = false)
  /\ (reverseLevels_get r = None ->
      prefix_of timestamp nm r
      = "[" +:+ chalk blue timestamp +:+ "]["
            +:+ match nm with
                | None => ""
                | Some n => chalk magenta n
                end
            +:+ "][" +:+ "undefined" +:+ "]").
Proof.
  split.
  - rewrite reverseLevels_get_eq. split.
    + intros H k Hk.
      assert (Hcases : k = 1 \/ k = 2 \/ k = 3 \/ k = 4 \/ k = 5 \/ k = 6) by lia.
      destruct (SameValueZero (of_Z 1) r) eqn:H1; [discriminate|].
      destruct (SameValueZero (of_Z 2) r) eqn:H2; [discriminate|].
      destruct (SameValueZero (of_Z 3) r) eqn:H3; [discriminate|].
      destruct (SameValueZero (of_Z 4) r) eqn:H4; [discriminate|].
      destruct (SameValueZero (of_Z 5) r) eqn:H5; [discriminate|].
      destruct (SameValueZero (of_Z 6) r) eqn:H6; [discriminate|].
      destruct Hcases as [->|[->|[->|[->|[->| ->]]]]]; assumption.
    + intros H. now rewrite !H by lia.
  - intros H. unfold prefix_of. now rewrite H.
Qed.

Lemma unregistered_rank_displays_undefined_witness :
  prefix_of (P := Platforms.plain_platform) "t" (Some "svc") (of_Z 7)
  = "[t][svc][undefined]".
Proof.
  destruct (unregistered_rank_displays_undefined (P := Platforms.plain_platform)
              (of_Z 7) "t" (Some "svc")) as [_ H].
  exact (H eq_refl).
Defined.

(** *** The constructor and the store *)

Lemma new_Logger_world {P : Platform} (nm : option string) (v : value)
    (opts : option Options) (w0 : world) :
  let this := fresh (dom (loggers w0) : gset loc) in
  let lm := fresh (dom (maps w0) : gset loc) in
  let chosen := match opts with
                | Some (mkOptions (Some m)) => m
                | _ => lm
                end in
  new_Logger nm v opts w0
  = if is_nullish v then (Return this, constructed nm (of_Z 2) chosen w0)
    else if isInteger (Number v)
         then (Return this, constructed nm (Number v) chosen w0)
         else (Raise invalid_level, constructed nm (of_Z 2) lm w0).
Proof.
  intros this lm chosen.
  unfold new_Logger, bind, alloc_map, alloc_logger. simpl.
  fold this lm. rewrite levels_WARNING.
  assert (Htail : forall lvl,
    (let (r, w') :=
       match streams match opts with
                     | Some o => o
                     | None => mkOptions None
                     end with
       | Some m => set_streams this m
       | None => ret tt
       end
         (set_loggers (insert this (mkLogger nm lvl lm))
            (set_maps (insert lm default_streams) w0)) in
     match r with
     | Return _ => ret this w'
     | Raise e => (Raise e, w')
     end)
    = (Return this, constructed nm lvl chosen w0)).
  { intros lvl. unfold chosen, constructed. fold this lm.
    destruct opts as [[[m|]]|]; simpl; try reflexivity.
    unfold set_streams, bind, get_logger, modify, ret. simpl.
    rewrite lookup_insert_eq. simpl. unfold set_loggers. simpl.
    now rewrite insert_insert_eq. }
  destruct (is_nullish v); simpl.
  - unfold ret at 1. apply Htail.
  - unfold setLevel. destruct (isInteger (Number v)) eqn:Hint; simpl.
    + unfold bind, get_logger, modify. simpl. rewrite lookup_insert_eq. simpl.
      rewrite <- (Htail (Number v)). unfold set_loggers at 1. simpl.
      now rewrite insert_insert_eq.
    + reflexivity.
Qed.

Lemma fresh_map_absent (w : world) :
  maps w !! fresh (dom (maps w) : gset loc) = None.
Proof.
  apply not_elem_of_dom. apply is_fresh.
Qed.

Lemma fresh_logger_absent (w : world) :
  loggers w !! fresh (dom (loggers w) : gset loc) = None.
Proof.
  apply not_elem_of_dom. apply is_fresh.
Qed.

Lemma new_Logger_returns {P : Platform} (nm : option string) (v : value)
    (opts : option Options) (w0 : world) (this : loc) (w' : world) :
  new_Logger nm v opts w0 = (Return this, w') ->
  this = fresh (dom (loggers w0) : gset loc)
  /\ exists lvl,
      isInteger lvl = true
      /\ w' = constructed nm lvl
                match opts with
                | Some (mkOptions (Some m)) => m
                | _ => fresh (dom (maps w0) : gset loc)
                end w0.
Proof.
  rewrite new_Logger_world.
  destruct (is_nullish v); [|destruct (isInteger (Number v)) eqn:Hint];
    intros H; try discriminate; injection H as <- <-;
    (split; [reflexivity|]); eexists; (split; [|reflexivity]);
    [reflexivity|exact Hint].
Qed.

(** X6.  The constructor takes [options.streams] by reference and
    otherwise gives the logger a table of its own.  When the caller
    passes a table, the logger refers to that very table and the table
    is left as it is; when not, the logger refers to a table at a
    location the store did not hold before, which routes standard
    output with the registered ranks. *)
Theorem constructor_routes_by_reference {P : Platform} (nm : option string)
    (v : value) (opts : option Options) (w0 : world) (this : loc) (w' : world) :
  new_Logger nm v opts w0 = (Return this, w') ->
  exists lg,
    loggers w' !! this = Some lg
    /\ name lg = nm
    /\ loggers w0 !! this = None
    /\ (forall m, opts = Some (mkOptions (Some m)) ->
                  __streams lg = m
                  /\ forall tbl, maps w0 !! m = Some tbl -> maps w' !! m = Some tbl)
    /\ (opts = None \/ opts = Some (mkOptions None) ->
        maps w0 !! __streams lg = None
        /\ maps w' !! __streams lg
           = Some [(process_stdout,
                    [of_Z 1; of_Z 2; of_Z 3; of_Z 4; of_Z 5; of_Z 6])]).
Proof.
  intros H. apply new_Logger_returns in H as [-> [lvl [_ ->]]].
  eexists. split; [apply lookup_insert_eq|]. split; [reflexivity|].
  split; [apply fresh_logger_absent|]. split.
  - intros m ->. split; [reflexivity|]. intros tbl Htbl. simpl.
    rewrite lookup_insert_ne; [exact Htbl|].
    intros Heq. rewrite <- Heq, fresh_map_absent in Htbl. discriminate.
  - intros [-> | ->]; simpl; (split; [apply fresh_map_absent|]);
      rewrite lookup_insert_eq; unfold default_streams;
      now rewrite levelsList_eq.
Qed.

Lemma constructor_routes_by_reference_witness :
  exists lg,
    loggers (Sample.routed_world Sample.healthy) !! 0%nat = Some lg
    /\ __streams lg = 7%nat
    /\ maps (Sample.routed_world Sample.healthy) !! 7%nat
       = Some Sample.two_streams.
Proof.
  assert (Hnew : new_Logger (P := Platforms.plain_platform)
                   (Some "app") (VNumber (of_Z 6)) (Some (mkOptions (Some 7%nat)))
                   (mkWorld ∅ {[ 7%nat := Sample.two_streams ]} [] 1446523200000
                      Sample.healthy [])
                 = (Return 0%nat, Sample.routed_world Sample.healthy))
    by (vm_compute; reflexivity).
  destruct (constructor_routes_by_reference (P := Platforms.plain_platform)
              _ _ _ _ _ _ Hnew)
    as (lg & Hlg & _ & _ & Hgiven & _).
  destruct (Hgiven 7%nat eq_refl) as [Hst Htbl].
  exists lg. split; [exact Hlg|]. split; [exact Hst|].
  exact (Htbl Sample.two_streams eq_refl).
Defined.

(** X7.  Two loggers constructed one after the other without
    [options.streams] are different instances with different tables;
    constructed with the same [options.streams] they share that
    table. *)
Theorem default_tables_are_private {P : Platform} (n1 n2 : option string)
    (v1 v2 : value) (o1 o2 : option Options) (w0 w1 w2 : world) (a b : loc) :
  new_Logger n1 v1 o1 w0 = (Return a, w1) ->
  new_Logger n2 v2 o2 w1 = (Return b, w2) ->
  exists la lb,
    loggers w2 !! a = Some la
    /\ loggers w2 !! b = Some lb
    /\ a <> b
    /\ ((o1 = None \/ o1 = Some (mkOptions None)) ->
        (o2 = None \/ o2 = Some (mkOptions None)) ->
        __streams la <> __streams lb)
    /\ (forall m, o1 = Some (mkOptions (Some m)) ->
                  o2 = Some (mkOptions (Some m)) ->
                  __streams la = m /\ __streams lb = m).
Proof.
  intros H1 H2.
  apply new_Logger_returns in H1 as [-> [l1 [_ ->]]].
  apply new_Logger_returns in H2 as [-> [l2 [_ ->]]].
  set (w1 := constructed n1 l1 _ w0).
  assert (Ha : loggers w1 !! fresh (dom (loggers w0) : gset loc)
               = Some (mkLogger n1 l1
                         match o1 with
                         | Some (mkOptions (Some m)) => m
                         | _ => fresh (dom (maps w0) : gset loc)
                         end)) by apply lookup_insert_eq.
  assert (Hne : fresh (dom (loggers w0) : gset loc)
                <> fresh (dom (loggers w1) : gset loc)).
  { intros Heq. rewrite Heq, fresh_logger_absent in Ha. discriminate. }
  eexists _, _. split; [|split; [apply lookup_insert_eq|]].
  - simpl. rewrite lookup_insert_ne by (intros E; apply Hne; symmetry; exact E). exact Ha.
  - split; [exact Hne|]. split.
    + intros Ho1 Ho2. simpl.
      assert (Hm : maps w1 !! fresh (dom (maps w0) : gset loc)
                   = Some default_streams) by apply lookup_insert_eq.
      assert (Hfresh : fresh (dom (maps w0) : gset loc)
                       <> fresh (dom (maps w1) : gset loc)).
      { intros Heq. rewrite Heq, fresh_map_absent in Hm. discriminate. }
      destruct Ho1 as [-> | ->], Ho2 as [-> | ->]; exact Hfresh.
    + intros m -> ->. now split.
Qed.

Lemma default_tables_are_private_witness :
  exists la lb,
    loggers (snd (new_Logger (P := Platforms.plain_platform) (Some "other")
                    VNull None Sample.svc_world)) !! 0%nat = Some la
    /\ loggers (snd (new_Logger (P := Platforms.plain_platform) (Some "other")
                       VNull None Sample.svc_world)) !! 1%nat = Some lb
    /\ __streams la <> __streams lb.
Proof.
  assert (H1 : new_Logger (P := Platforms.plain_platform) (Some "svc")
                 (VNumber (of_Z 3)) None Sample.empty_world
               = (Return 0%nat, Sample.svc_world))
    by (vm_compute; reflexivity).
  assert (H2 : new_Logger (P := Platforms.plain_platform) (Some "other")
                 VNull None Sample.svc_world
               = (Return 1%nat,
                  snd (new_Logger (P := Platforms.plain_platform) (Some "other")
                         VNull None Sample.svc_world)))
    by (vm_compute; reflexivity).
  destruct (default_tables_are_private (P := Platforms.plain_platform)
              _ _ _ _ None None _ _ _ _ _ H1 H2)
    as (la & lb & Ha & Hb & _ & Hprivate & _).
  exists la, lb. split; [exact Ha|]. split; [exact Hb|].
  apply Hprivate; now left.
Defined.

(** X8.  Constructing a logger, whether it returns or raises, writes
    nothing, queues nothing, leaves the clock alone and changes no
    logger and no routing table that existed. *)
Theorem constructor_leaves_the_rest {P : Platform} (nm : option string)
    (v : value) (opts : option Options) (w0 : world) :
  let w' := snd (new_Logger nm v opts w0) in
  written w' = written w0
  /\ immediates w' = immediates w0
  /\ clock w' = clock w0
  /\ behaviour_of w' = behaviour_of w0
  /\ (forall l lg0, loggers w0 !! l = Some lg0 -> loggers w' !! l = Some lg0)
  /\ (forall m tbl, maps w0 !! m = Some tbl -> maps w' !! m = Some tbl).
Proof.
  intros w'. subst w'. rewrite new_Logger_world.
  assert (H : forall lvl st,
    let w' := constructed nm lvl st w0 in
    written w' = written w0
    /\ immediates w' = immediates w0
    /\ clock w' = clock w0
    /\ behaviour_of w' = behaviour_of w0
    /\ (forall l lg0, loggers w0 !! l = Some lg0 -> loggers w' !! l = Some lg0)
    /\ (forall m tbl, maps w0 !! m = Some tbl -> maps w' !! m = Some tbl)).
  { intros lvl st. simpl. repeat split.
    - intros l lg0 Hl. rewrite lookup_insert_ne; [exact Hl|].
      intros Heq. rewrite <- Heq, fresh_logger_absent in Hl. discriminate.
    - intros m tbl Hm. rewrite lookup_insert_ne; [exact Hm|].
      intros Heq. rewrite <- Heq, fresh_map_absent in Hm. discriminate. }
  destruct (is_nullish v); [|destruct (isInteger (Number v))]; apply H.
Qed.

(** *** What the operations leave alone *)

Lemma write_entries_appends (entries : StreamMap) (messageLevel : number)
    (text : string) (w : world) :
  exists tr, snd (write_entries entries messageLevel text w) = add_written tr w.
Proof.
  rewrite write_entries_spec. destruct (attempted _ _) as [tr failed].
  now exists tr.
Qed.

Lemma write_lines_appends (this : loc) (prefix : string) (messageLevel : number)
    (lines : list string) :
  forall (sep : string) (w : world),
    exists tr, snd (write_lines this prefix sep messageLevel lines w)
               = add_written tr w.
Proof.
  induction lines as [|line rest IH]; intros sep w.
  - exists []. simpl. now rewrite add_written_nil.
  - simpl. unfold bind, get_logger, get_map.
    destruct (loggers w !! this) as [lg|];
      [|exists []; simpl; now rewrite add_written_nil].
    destruct (maps w !! __streams lg) as [entries|];
      [|exists []; simpl; now rewrite add_written_nil].
    destruct (write_entries_appends entries messageLevel
                (format_line prefix sep line) w) as [tr Htr].
    destruct (write_entries entries messageLevel _ w) as [[[]|e] w1];
      simpl in Htr; subst w1; [|now exists tr].
    destruct (IH "   " (add_written tr w)) as [tr' Htr'].
    exists (tr ++ tr'). now rewrite Htr', add_written_app.
Qed.

Lemma run_task_appends {P : Platform} (t : task) (w : world) :
  exists tr, snd (run_task t w) = add_written tr w.
Proof.
  unfold run_task, __write, bind, get_logger.
  destruct (loggers w !! self t) as [lg|];
    [|exists []; simpl; now rewrite add_written_nil].
  apply write_lines_appends.
Qed.

Lemma run_tasks_appends {P : Platform} (ts : list task) :
  forall w, exists tr ran kept,
    ts = ran ++ kept
    /\ snd (run_tasks ts w)
       = set_immediates (fun q => kept ++ q) (add_written tr w)
    /\ (fst (run_tasks ts w) = Return tt -> kept = [])
    /\ (fst (run_tasks ts w) <> Return tt -> ran <> []).
Proof.
  induction ts as [|t ts IH]; intros w.
  - exists [], [], []. simpl.
    rewrite add_written_nil, nothing_put_back. now repeat split.
  - simpl. destruct (run_task_appends t w) as [tr Htr].
    destruct (run_task t w) as [[[]|e] w1]; simpl in Htr; subst w1.
    + destruct (IH (add_written tr w)) as (tr' & ran & kept & -> & Hw & Hr & Hn).
      exists (tr ++ tr'), (t :: ran), kept.
      rewrite Hw, add_written_app. now repeat split.
    + exists tr, [t], ts. now repeat split.
Qed.


(** Two calls, then two turns with a first destination that raises:
    the first turn ends at the first call's write and keeps the task of
    the second call, which the second turn runs. *)
Example task_behind_a_raise_is_kept :
  let called :=
    snd (log 0%nat (of_Z 3) [VString "y"]
           (snd (log 0%nat (of_Z 3) [VString "x"]
                   (Sample.routed_world Sample.first_raises)))) in
  let first := run_immediates (P := Platforms.plain_platform) called in
  let second := run_immediates (P := Platforms.plain_platform) (snd first) in
  fst first = Raise (WriteError 1%nat)
  /\ immediates (snd first)
     = [mkTask 0%nat 1446523200000 (of_Z 6) (of_Z 3, [VString "y"])]
  /\ written (snd first)
     = [(1%nat, "[2015-11-03 04:00:00][app][INFO] *** x" +:+ newline)]
  /\ fst second = Raise (WriteError 1%nat)
  /\ immediates (snd second) = []
  /\ written (snd second)
     = [(1%nat, "[2015-11-03 04:00:00][app][INFO] *** x" +:+ newline);
        (1%nat, "[2015-11-03 04:00:00][app][INFO] *** y" +:+ newline)].
Proof. cbv zeta. repeat split; reflexivity. Qed.

(** X10.  Assigning a threshold touches that one threshold.  Whatever
    the value and whether the setter returns or raises, the other
    loggers, the name and the table of the logger itself, the routing
    tables, the queue, the clock and the writes are as before. *)
Theorem assignment_touches_one_threshold (this : loc) (v : value) (w : world) :
  let w' := snd (setLevel this v w) in
  maps w' = maps w
  /\ immediates w' = immediates w
  /\ clock w' = clock w
  /\ written w' = written w
  /\ (forall l, l <> this -> loggers w' !! l = loggers w !! l)
  /\ (forall lg, loggers w !! this = Some lg ->
                 exists lg', loggers w' !! this = Some lg'
                             /\ name lg' = name lg
                             /\ __streams lg' = __streams lg)
  /\ (loggers w !! this = None -> w' = w).
Proof.
  intros w'. subst w'. unfold setLevel.
  destruct (negb (isInteger (Number v))).
  - simpl. repeat split; try reflexivity. intros lg Hlg. now exists lg.
  - unfold bind, get_logger. destruct (loggers w !! this) as [lg|] eqn:Hlg.
    + simpl. repeat split; try discriminate.
      * intros l Hl. now apply lookup_insert_ne.
      * intros lg0 [= <-]. eexists. split; [apply lookup_insert_eq|].
        now split.
    + simpl. repeat split; try reflexivity. intros lg Hlg'. discriminate.
Qed.

(** X11.  What the getter reads after an assignment.  After an
    assignment the setter accepted, the getter returns the coerced
    value; after one it refused, the getter returns the threshold of
    before.  Assigning to a logger the threshold it has changes
    nothing. *)
Theorem level_read_after_assignment (this : loc) (lg : Logger) (w : world)
    (v : value) :
  loggers w !! this = Some lg ->
  (isInteger (Number v) = true ->
   fst (getLevel this (snd (setLevel this v w))) = Return (Number v))
  /\ (isInteger (Number v) = false ->
      fst (getLevel this (snd (setLevel this v w))) = Return (__level lg))
  /\ (isInteger (__level lg) = true ->
      setLevel this (VNumber (__level lg)) w = (Return tt, w)).
Proof.
  intros Hlg. split; [|split].
  - intros Hint. rewrite (setLevel_integer this lg w v Hlg Hint). simpl.
    unfold getLevel, bind, get_logger. simpl. now rewrite lookup_insert_eq.
  - intros Hint. rewrite (setLevel_invalid this w v Hint). simpl.
    unfold getLevel, bind, get_logger. now rewrite Hlg.
  - intros Hint.
    rewrite (setLevel_integer this lg w (VNumber (__level lg)) Hlg Hint). f_equal.
    simpl. destruct lg as [n l s]. simpl.
    unfold set_loggers. rewrite (insert_id _ _ _ Hlg). now destruct w.
Qed.

Lemma level_read_after_assignment_witness :
  fst (getLevel 0%nat (snd (setLevel 0%nat (VString "5") Sample.svc_world)))
  = Return (of_Z 5)
  /\ fst (getLevel 0%nat (snd (setLevel 0%nat (VString "five") Sample.svc_world)))
     = Return (of_Z 3)
  /\ setLevel 0%nat (VNumber (of_Z 3)) Sample.svc_world
     = (Return tt, Sample.svc_world).
Proof.
  destruct (level_read_after_assignment 0%nat Sample.svc Sample.svc_world
              (VString "5") eq_refl) as (Hok & _ & Hsame).
  destruct (level_read_after_assignment 0%nat Sample.svc Sample.svc_world
              (VString "five") eq_refl) as (_ & Hbad & _).
  split; [exact (Hok eq_refl)|]. split; [exact (Hbad eq_refl)|].
  exact (Hsame eq_refl).
Defined.

(** X12.  The names of the levels are not thresholds.  For every
    level of the registry, assigning its name, in upper or in lower
    case, raises the invalid-level error and changes nothing, while
    assigning its rank is accepted and read back. *)
Theorem level_names_are_not_thresholds {P : Platform} (key : string)
    (r : number) (this : loc) (lg : Logger) (w : world) :
  In (key, r) levels ->
  loggers w !! this = Some lg ->
  setLevel this (VString key) w = (Raise invalid_level, w)
  /\ setLevel this (VString (toLowerCase key)) w = (Raise invalid_level, w)
  /\ setLevel this (VNumber r) w
     = (Return tt,
        set_loggers (insert this (mkLogger (name lg) r (__streams lg))) w).
Proof.
  intros Hin Hlg. rewrite levels_eq in Hin. simpl in Hin.
  destruct Hin as [H|[H|[H|[H|[H|[H|[]]]]]]]; injection H as <- <-;
    (split; [now apply setLevel_invalid|]);
    (split; [now apply setLevel_invalid|]);
    now apply (setLevel_integer this lg w (VNumber _) Hlg).
Qed.

Lemma level_names_are_not_thresholds_witness :
  setLevel 0%nat (VString "INFO") Sample.svc_world
  = (Raise invalid_level, Sample.svc_world)
  /\ setLevel 0%nat (VString "info") Sample.svc_world
     = (Raise invalid_level, Sample.svc_world).
Proof.
  destruct (level_names_are_not_thresholds (P := Platforms.plain_platform)
              "INFO" (of_Z 3) 0%nat Sample.svc Sample.svc_world
              (or_intror (or_intror (or_introl eq_refl))) eq_refl)
    as (Hupper & Hlower & _).
  split; [exact Hupper|exact Hlower].
Defined.

(** *** Thresholds stay integers *)

Lemma log_world (this : loc) (level : number) (messages : list value) (w : world) :
  snd (log this level messages w) = w
  \/ exists t, snd (log this level messages w)
               = set_immediates (fun q => q ++ [t]) w.
Proof.
  destruct (loggers w !! this) as [lg|] eqn:Hlg.
  - destruct (gt level (__level lg)) eqn:Hgt.
    + left. now rewrite (log_rejected this lg w _ _ Hlg Hgt).
    + right. eexists. now rewrite (log_accepted this lg w _ _ Hlg Hgt).
  - left. unfold log, bind, new_Date, getLevel, get_logger, bind.
    now rewrite Hlg.
Qed.

Lemma level_method_cases {P : Platform} (nm : string)
    (method : loc -> list value -> M unit) :
  In (nm, method) level_methods ->
  exists k : Z,
    In (nm, k) [ ("severe", 1); ("warning", 2); ("info", 3);
                 ("fine", 4); ("finer", 5); ("finest", 6) ]
    /\ forall this arguments w,
        method this arguments w = log this (of_Z k) arguments w.
Proof.
  unfold level_methods, Object_keys. rewrite levels_eq. simpl.
  intros [H|[H|[H|[H|[H|[H|[]]]]]]]; injection H as <- <-.
  - exists 1. split; [simpl; tauto|]. intros. now rewrite levels_at_eq.
  - exists 2. split; [simpl; tauto|]. intros. now rewrite levels_at_eq.
  - exists 3. split; [simpl; tauto|]. intros. now rewrite levels_at_eq.
  - exists 4. split; [simpl; tauto|]. intros. now rewrite levels_at_eq.
  - exists 5. split; [simpl; tauto|]. intros. now rewrite levels_at_eq.
  - exists 6. split; [simpl; tauto|]. intros. now rewrite levels_at_eq.
Qed.

Lemma perform_levels {P : Platform} (a : action) (w : world) (l : loc)
    (lg : Logger) :
  loggers (perform a w) !! l = Some lg ->
  isInteger (__level lg) = true
  \/ exists lg0, loggers w !! l = Some lg0 /\ __level lg = __level lg0.
Proof.
  assert (Hsame : forall w', loggers w' = loggers w ->
            loggers w' !! l = Some lg ->
            isInteger (__level lg) = true
            \/ exists lg0, loggers w !! l = Some lg0 /\ __level lg = __level lg0).
  { intros w' -> H. right. now exists lg. }
  destruct a as [nm v opts|this v|this n|this level messages|i this arguments
                |m s lv|d|]; simpl.
  - rewrite new_Logger_world.
    assert (H : forall lvl st, isInteger lvl = true ->
              loggers (constructed nm lvl st w) !! l = Some lg ->
              isInteger (__level lg) = true
              \/ exists lg0, loggers w !! l = Some lg0 /\ __level lg = __level lg0).
    { intros lvl st Hint. simpl.
      destruct (decide (fresh (dom (loggers w) : gset loc) = l)) as [<-|Hne].
      - rewrite lookup_insert_eq. intros [= <-]. now left.
      - rewrite lookup_insert_ne by exact Hne. intros H. right. now exists lg. }
    destruct (is_nullish v); [|destruct (isInteger (Number v)) eqn:Hint];
      simpl; now apply H.
  - unfold setLevel. destruct (isInteger (Number v)) eqn:Hint; simpl;
      [|now apply Hsame].
    unfold bind, get_logger. destruct (loggers w !! this) as [lg0|] eqn:H0;
      simpl; [|now apply Hsame].
    destruct (decide (this = l)) as [<-|Hne].
    + rewrite lookup_insert_eq. intros [= <-]. now left.
    + rewrite lookup_insert_ne by exact Hne. intros H. right. now exists lg.
  - unfold set_name, bind, get_logger.
    destruct (loggers w !! this) as [lg0|] eqn:H0; simpl; [|now apply Hsame].
    destruct (decide (this = l)) as [<-|Hne].
    + rewrite lookup_insert_eq. intros [= <-]. right. now exists lg0.
    + rewrite lookup_insert_ne by exact Hne. intros H. right. now exists lg.
  - destruct (log_world this level messages w) as [->|[t ->]]; now apply Hsame.
  - destruct (level_methods !! i) as [[nm method]|] eqn:Hi; [|now apply Hsame].
    apply list_elem_of_lookup_2, list_elem_of_In in Hi.
    destruct (level_method_cases nm method Hi) as [k [_ ->]].
    destruct (log_world this (of_Z k) arguments w) as [->|[t ->]];
      now apply Hsame.
  - unfold Map_set, bind, get_map. destruct (maps w !! m); now apply Hsame.
  - now apply Hsame.
  - unfold run_immediates.
    destruct (run_tasks_appends (immediates w)
                (set_immediates (fun _ => []) w)) as (tr & _ & kept & _ & -> & _).
    now apply Hsame.
Qed.

(** X13.  Thresholds stay integers.  If every logger has an integer
    threshold, then so has every logger after any series of
    constructions, threshold and name assignments, calls to [log] and
    to the per-level methods, changes of routing tables, clock ticks
    and turns of the queue, whichever of them raise. *)
Theorem thresholds_stay_integers {P : Platform} (actions : list action)
    (w : world) :
  integer_thresholds w -> integer_thresholds (perform_all actions w).
Proof.
  revert w. induction actions as [|a actions IH]; intros w Hw; [exact Hw|].
  simpl. apply IH. intros l lg Hl.
  destruct (perform_levels a w l lg Hl) as [H|[lg0 [H0 ->]]]; [exact H|].
  now apply (Hw l lg0).
Qed.

Lemma thresholds_stay_integers_witness :
  integer_thresholds
    (perform_all (P := Platforms.plain_platform)
       [ Construct (Some "a") (VString "4") None;
         AssignLevel 0%nat (VString "1.5");
         AssignLevel 0%nat (VBool true);
         CallMethod 0%nat 0%nat [VString "x"];
         RunImmediates ]
       Sample.empty_world).
Proof.
  apply (thresholds_stay_integers (P := Platforms.plain_platform)).
  intros l lg H. simpl in H. rewrite lookup_empty in H. discriminate.
Defined.

(** *** The per-level methods and the threshold *)

Lemma muted_rank (k : Z) (T : number) :
  1 <= k -> le T (of_Z 0) = true -> gt (of_Z k) T = true.
Proof.
  intros Hk. destruct T as [| | |q]; try discriminate; [reflexivity|].
  unfold le, gt, JS.compare, of_Z, Qcompare, inject_Z.
  cbn [Qnum Qden].
  pose proof (Pos2Z.is_pos (Qden q)) as Hden.
  repeat match goal with
         | |- context [(?a ?= ?b)%Z] => destruct (Z.compare_spec a b)
         end; intros Hle; try reflexivity; try discriminate Hle; nia.
Qed.

Lemma open_rank (k : Z) (T : number) :
  k <= 6 -> le (of_Z 6) T = true -> gt (of_Z k) T = false.
Proof.
  intros Hk. destruct T as [| | |q]; try discriminate; [reflexivity|].
  unfold le, gt, JS.compare, of_Z, Qcompare, inject_Z.
  cbn [Qnum Qden].
  pose proof (Pos2Z.is_pos (Qden q)) as Hden.
  repeat match goal with
         | |- context [(?a ?= ?b)%Z] => destruct (Z.compare_spec a b)
         end; intros Hle; try reflexivity; try discriminate Hle; nia.
Qed.

(** X14.  The per-level methods and the threshold.  Each method is
    [log] at a rank from [1] to [6]: it does nothing when that rank is
    greater than the threshold and queues one task otherwise.  With a
    threshold of [0] or less every method does nothing; with a
    threshold of [6] or more every method queues its task; with the
    default threshold [2], [severe] and [warning] queue and the four
    others do nothing. *)
Theorem level_methods_respect_threshold {P : Platform} (nm : string)
    (method : loc -> list value -> M unit) (this : loc) (lg : Logger)
    (w : world) (arguments : list value) :
  In (nm, method) level_methods ->
  loggers w !! this = Some lg ->
  let dropped := method this arguments w = (Return tt, w) in
  let queued (k : Z) :=
    method this arguments w
    = (Return tt,
       set_immediates
         (fun q => q ++ [mkTask this (clock w) (__level lg) (of_Z k, arguments)])
         w) in
  (exists k, 1 <= k <= 6
             /\ (gt (of_Z k) (__level lg) = true -> dropped)
             /\ (gt (of_Z k) (__level lg) = false -> queued k))
  /\ (le (__level lg) (of_Z 0) = true -> dropped)
  /\ (le (of_Z 6) (__level lg) = true -> exists k, queued k)
  /\ (__level lg = of_Z 2 ->
      (nm = "severe" -> queued 1) /\ (nm = "warning" -> queued 2)
      /\ (nm <> "severe" -> nm <> "warning" -> dropped)).
Proof.
  intros Hin Hlg dropped queued.
  destruct (level_method_cases nm method Hin) as [k [Hk Hm]].
  assert (Hrange : 1 <= k <= 6).
  { simpl in Hk.
    destruct Hk as [H|[H|[H|[H|[H|[H|[]]]]]]]; injection H as _ <-; lia. }
  assert (Hdrop : gt (of_Z k) (__level lg) = true -> dropped).
  { intros Hgt. unfold dropped. rewrite Hm. now apply (log_rejected this lg). }
  assert (Hqueue : gt (of_Z k) (__level lg) = false -> queued k).
  { intros Hgt. unfold queued. rewrite Hm. now apply (log_accepted this lg). }
  split; [exists k; now repeat split|]. split; [|split].
  - intros Hle. apply Hdrop. apply muted_rank; [lia|exact Hle].
  - intros Hle. exists k. apply Hqueue. apply open_rank; [lia|exact Hle].
  - intros HT. rewrite HT in Hdrop, Hqueue. simpl in Hk.
    destruct Hk as [H|[H|[H|[H|[H|[H|[]]]]]]]; injection H as <- <-;
      repeat split; intros; try discriminate; try congruence;
      try (now apply Hqueue); now apply Hdrop.
Qed.

Lemma level_methods_respect_threshold_witness :
  let muted := snd (setLevel 0%nat (VString "") Sample.svc_world) in
  match level_methods (P := Platforms.plain_platform) !! 0%nat with
  | Some (nm, method) => method 0%nat [VString "x"] muted = (Return tt, muted)
  | None => False
  end.
Proof.
  cbv zeta.
  destruct (level_methods (P := Platforms.plain_platform) !! 0%nat)
    as [[nm method]|] eqn:Hi; [|discriminate Hi].
  apply list_elem_of_lookup_2, list_elem_of_In in Hi.
  destruct (level_methods_respect_threshold (P := Platforms.plain_platform)
              nm method 0%nat (mkLogger (Some "svc") (of_Z 0) 0%nat)
              (snd (setLevel 0%nat (VString "") Sample.svc_world))
              [VString "x"] Hi eq_refl) as (_ & Hmuted & _).
  exact (Hmuted eq_refl).
Defined.

(** *** The order of the flushes *)

Lemma run_tasks_app {P : Platform} (a b : list task) (w : world) :
  fst (run_tasks a w) = Return tt ->
  run_tasks (a ++ b) w = run_tasks b (snd (run_tasks a w)).
Proof.
  revert w. induction a as [|t a IH]; intros w; [reflexivity|].
  simpl. destruct (run_task t w) as [[[]|e] w1]; [apply IH|discriminate].
Qed.

(** X15.  Calls are flushed in the order they were made.  When the
    tasks queued before a call return, the task of the call runs after
    all of them, in the world they left, so its writes follow theirs. *)
Theorem calls_flush_in_order {P : Platform} (this : loc) (lg : Logger)
    (w : world) (messageLevel : number) (messages : list value) (t : task) :
  loggers w !! this = Some lg ->
  queues this messageLevel messages w t ->
  fst (run_immediates w) = Return tt ->
  run_immediates (snd (log this messageLevel messages w))
  = run_task t (snd (run_immediates w)).
Proof.
  intros Hlg Hq. unfold queues in Hq. rewrite Hq. simpl snd.
  unfold run_immediates. simpl immediates.
  change (set_immediates (fun _ => [])
            (set_immediates (fun q => q ++ [t]) w))
    with (set_immediates (fun _ => []) w).
  intros Hr. rewrite run_tasks_app by exact Hr. apply run_tasks_single.
Qed.

Lemma calls_flush_in_order_witness :
  written
    (snd (run_immediates (P := Platforms.plain_platform)
            (snd (log 0%nat (of_Z 2) [VString "second"]
                    (snd (log 0%nat (of_Z 1) [VString "first"]
                            Sample.svc_world))))))
  = [ (0%nat, "[2015-11-03 04:00:00][svc][SEVERE] *** first" +:+ newline);
      (0%nat, "[2015-11-03 04:00:00][svc][WARNING] *** second" +:+ newline) ].
Proof.
  pose proof (calls_flush_in_order (P := Platforms.plain_platform)
              0%nat Sample.svc
              (snd (log 0%nat (of_Z 1) [VString "first"] Sample.svc_world))
              (of_Z 2) [VString "second"]
              (mkTask 0%nat 1446523200000 (of_Z 3) (of_Z 2, [VString "second"]))
              eq_refl eq_refl eq_refl) as H.
  rewrite H. reflexivity.
Defined.

(** *** The property helpers *)

Section PropertyHelpers.

Variable V : Type.
Variable SameValue : V -> V -> bool.
Variable undefined : V.

Local Abbreviation own := (Props.own V).
Local Abbreviation keys := (Props.keys V).
Local Abbreviation names := (Props.enumerable_names V).
Local Abbreviation replace := (Props.replace V).
Local Abbreviation Data := (Props.Data V).
Local Abbreviation Accessor := (Props.Accessor V).
Local Abbreviation assign := (Props.assign V).
Local Abbreviation __hidden := (Props.__hidden V SameValue undefined).
Local Abbreviation __virtual := (Props.__virtual V SameValue undefined).

Lemma own_absent (o : Props.object V) (P : string) :
  own o P = None <-> ~ In P (List.map fst o).
Proof.
  induction o as [|[k p] o IH]; simpl; [tauto|].
  destruct (String.eqb k P) eqn:Hk.
  - apply String.eqb_eq in Hk. split; [discriminate|]. intros H. exfalso. auto.
  - apply String.eqb_neq in Hk. rewrite IH. tauto.
Qed.

Lemma own_app_new (o : Props.object V) (P : string) (p : Props.property V) :
  own o P = None ->
  own (o ++ [(P, p)]) P = Some p
  /\ forall Q, Q <> P -> own (o ++ [(P, p)]) Q = own o Q.
Proof.
  induction o as [|[k q] o IH]; simpl; intros H.
  - rewrite String.eqb_refl. split; [reflexivity|]. intros Q HQ.
    apply not_eq_sym, String.eqb_neq in HQ. now rewrite HQ.
  - destruct (String.eqb k P) eqn:Hk; [discriminate|].
    destruct (IH H) as [IH1 IH2]. split; [exact IH1|].
    intros Q HQ. destruct (String.eqb k Q); [reflexivity|now apply IH2].
Qed.

Lemma own_replace (o : Props.object V) (P : string) (p q : Props.property V) :
  own o P = Some q ->
  own (replace o P p) P = Some p
  /\ forall Q, Q <> P -> own (replace o P p) Q = own o Q.
Proof.
  induction o as [|[k r] o IH]; simpl; intros H; [discriminate|].
  destruct (String.eqb k P) eqn:Hk.
  - simpl. rewrite Hk. split; [reflexivity|]. intros Q HQ.
    apply String.eqb_eq in Hk. subst k.
    apply not_eq_sym, String.eqb_neq in HQ. now rewrite HQ.
  - simpl. rewrite Hk. destruct (IH H) as [IH1 IH2]. split; [exact IH1|].
    intros Q HQ. destruct (String.eqb k Q); [reflexivity|now apply IH2].
Qed.

Lemma in_insert_index (x z : Z * string) (l : list (Z * string)) :
  In z (Props.insert_index x l) <-> z = x \/ In z l.
Proof.
  induction l as [|y l IH]; simpl; [intuition|].
  destruct (fst x <=? fst y)%Z; simpl; [intuition|].
  rewrite IH. intuition.
Qed.


(** Each entry is at most the entries behind it. *)
Fixpoint ascending (l : list (Z * string)) : Prop :=
  match l with
  | [] => True
  | y :: rest => (forall z, In z rest -> (fst y <= fst z)%Z) /\ ascending rest
  end.

Lemma insert_index_ascending (x : Z * string) (l : list (Z * string)) :
  ascending l -> ascending (Props.insert_index x l).
Proof.
  induction l as [|y l IH]; simpl; intros H; [now split|].
  destruct H as [Hy Hl].
  destruct (fst x <=? fst y)%Z eqn:Hxy.
  - apply Z.leb_le in Hxy. simpl. split; [|now split].
    intros z [<-|Hz]; [exact Hxy|]. specialize (Hy z Hz). lia.
  - apply Z.leb_gt in Hxy. simpl. split; [|now apply IH].
    intros z Hz. apply in_insert_index in Hz as [->|Hz]; [lia|now apply Hy].
Qed.

Lemma sort_indices_ascending (l : list (Z * string)) :
  ascending (Props.sort_indices l).
Proof.
  induction l as [|x l IH]; simpl; [exact I|].
  now apply insert_index_ascending.
Qed.

Lemma insert_index_first (x : Z * string) (l : list (Z * string)) :
  (forall z, In z l -> (fst x <= fst z)%Z) ->
  Props.insert_index x l = x :: l.
Proof.
  destruct l as [|y l]; simpl; intros H; [reflexivity|].
  assert (Hxy : (fst x <=? fst y)%Z = true) by (apply Z.leb_le, H; now left).
  now rewrite Hxy.
Qed.

Lemma filter_insert_index_kept (h : Z * string -> bool) (x : Z * string)
    (l : list (Z * string)) :
  ascending l -> h x = true ->
  List.filter h (Props.insert_index x l)
  = Props.insert_index x (List.filter h l).
Proof.
  intros Hl Hx. induction l as [|y l IH]; simpl; [now rewrite Hx|].
  destruct Hl as [Hy Hl].
  destruct (fst x <=? fst y)%Z eqn:Hxy.
  - simpl. rewrite Hx. symmetry.
    change (Props.insert_index x (List.filter h (y :: l))
            = x :: List.filter h (y :: l)).
    apply insert_index_first. intros z Hz.
    apply List.filter_In in Hz as [Hz _]. apply Z.leb_le in Hxy.
    destruct Hz as [<-|Hz]; [exact Hxy|]. specialize (Hy z Hz). lia.
  - simpl. rewrite (IH Hl). destruct (h y); simpl; [|reflexivity].
    now rewrite Hxy.
Qed.

Lemma filter_insert_index_dropped (h : Z * string -> bool) (x : Z * string)
    (l : list (Z * string)) :
  h x = false ->
  List.filter h (Props.insert_index x l) = List.filter h l.
Proof.
  intros Hx. induction l as [|y l IH]; simpl; [now rewrite Hx|].
  destruct (fst x <=? fst y)%Z; simpl; [now rewrite Hx|].
  now rewrite IH.
Qed.

Lemma filter_sort_indices (h : Z * string -> bool) (l : list (Z * string)) :
  List.filter h (Props.sort_indices l) = Props.sort_indices (List.filter h l).
Proof.
  induction l as [|x l IH]; simpl; [reflexivity|].
  destruct (h x) eqn:Hx.
  - rewrite filter_insert_index_kept;
      [|apply sort_indices_ascending|exact Hx].
    simpl. now rewrite IH.
  - rewrite filter_insert_index_dropped by exact Hx. exact IH.
Qed.

Lemma index_names_filter (f : string -> bool) (names : list string) :
  Props.index_names (List.filter f names)
  = List.filter (fun x => f (snd x)) (Props.index_names names).
Proof.
  induction names as [|k names IH]; simpl; [reflexivity|].
  destruct (f k) eqn:Hf; simpl;
    destruct (Props.array_index k) as [i|]; simpl; rewrite ?Hf, ?IH;
    reflexivity.
Qed.



Lemma filter_map_snd (f : string -> bool) (l : list (Z * string)) :
  List.filter f (List.map snd l)
  = List.map snd (List.filter (fun x => f (snd x)) l).
Proof.
  induction l as [|x l IH]; simpl; [reflexivity|].
  destruct (f (snd x)); simpl; now rewrite IH.
Qed.

Lemma filter_swap (f g : string -> bool) (l : list string) :
  List.filter f (List.filter g l) = List.filter g (List.filter f l).
Proof.
  induction l as [|x l IH]; simpl; [reflexivity|].
  destruct (g x) eqn:Hg, (f x) eqn:Hf; simpl; rewrite ?Hg, ?Hf, IH; reflexivity.
Qed.

(** Leaving names out and ordering the keys commute. *)
Lemma order_keys_filter (f : string -> bool) (names : list string) :
  List.filter f (Props.order_keys names)
  = Props.order_keys (List.filter f names).
Proof.
  unfold Props.order_keys.
  rewrite List.filter_app, filter_map_snd, filter_sort_indices,
    <- index_names_filter, filter_swap.
  reflexivity.
Qed.



Lemma names_without_absent (o : Props.object V) (P : string) :
  ~ In P (List.map fst o) ->
  List.filter (Props.other_than P) (names o) = names o.
Proof.
  unfold Props.enumerable_names.
  induction o as [|[k p] o IH]; simpl; intros H; [reflexivity|].
  assert (Hk : Props.other_than P k = true).
  { unfold Props.other_than. apply negb_true_iff, String.eqb_neq. intros ->. auto. }
  destruct (Props.is_enumerable V p); simpl; rewrite ?Hk; rewrite IH by auto;
    reflexivity.
Qed.

Lemma names_replace_hidden (o : Props.object V) (P : string)
    (p : Props.property V) :
  List.NoDup (List.map fst o) ->
  In P (List.map fst o) ->
  Props.is_enumerable V p = false ->
  names (replace o P p) = List.filter (Props.other_than P) (names o).
Proof.
  unfold Props.enumerable_names.
  induction o as [|[k q] o IH]; simpl; intros Hnd Hin Hp; [easy|].
  apply List.NoDup_cons_iff in Hnd as [Hk Hnd].
  destruct (String.eqb k P) eqn:HkP.
  - apply String.eqb_eq in HkP. subst k. simpl. rewrite Hp.
    pose proof (names_without_absent o P Hk) as Hrest.
    unfold Props.enumerable_names in Hrest.
    destruct (Props.is_enumerable V q); simpl.
    + unfold Props.other_than at 1. rewrite String.eqb_refl. simpl.
      now rewrite Hrest.
    + now rewrite Hrest.
  - assert (HinO : In P (List.map fst o)).
    { destruct Hin as [->|Hin]; [|exact Hin].
      rewrite String.eqb_refl in HkP. discriminate. }
    simpl. destruct (Props.is_enumerable V q); simpl.
    + unfold Props.other_than at 1. rewrite HkP. simpl. now rewrite IH.
    + now apply IH.
Qed.

Lemma names_replace_same (o : Props.object V) (P : string)
    (p q : Props.property V) :
  own o P = Some q ->
  Props.is_enumerable V p = Props.is_enumerable V q ->
  names (replace o P p) = names o.
Proof.
  unfold Props.enumerable_names.
  induction o as [|[k r] o IH]; simpl; intros H Hp; [reflexivity|].
  destruct (String.eqb k P) eqn:Hk.
  - injection H as ->. simpl. rewrite Hp. now destruct (Props.is_enumerable V q).
  - simpl. destruct (Props.is_enumerable V r); simpl; now rewrite IH.
Qed.

Lemma names_app_new (o : Props.object V) (P : string) (p : Props.property V) :
  names (o ++ [(P, p)])
  = names o ++ (if Props.is_enumerable V p then [P] else []).
Proof.
  unfold Props.enumerable_names. rewrite List.filter_app, List.map_app. simpl.
  now destruct (Props.is_enumerable V p).
Qed.

Lemma keys_without_absent (o : Props.object V) (P : string) :
  ~ In P (List.map fst o) ->
  List.filter (Props.other_than P) (keys o) = keys o.
Proof.
  intros H. unfold Props.keys.
  now rewrite order_keys_filter, names_without_absent.
Qed.

Lemma keys_replace_hidden (o : Props.object V) (P : string)
    (p : Props.property V) :
  List.NoDup (List.map fst o) ->
  In P (List.map fst o) ->
  Props.is_enumerable V p = false ->
  keys (replace o P p) = List.filter (Props.other_than P) (keys o).
Proof.
  intros Hnd Hin Hp. unfold Props.keys.
  now rewrite order_keys_filter, names_replace_hidden.
Qed.

Lemma keys_replace_same (o : Props.object V) (P : string)
    (p q : Props.property V) :
  own o P = Some q ->
  Props.is_enumerable V p = Props.is_enumerable V q ->
  keys (replace o P p) = keys o.
Proof.
  intros H Hp. unfold Props.keys. now rewrite (names_replace_same o P p q).
Qed.

Lemma keys_app_hidden (o : Props.object V) (P : string) (p : Props.property V) :
  Props.is_enumerable V p = false ->
  keys (o ++ [(P, p)]) = keys o.
Proof.
  intros Hp. unfold Props.keys. rewrite names_app_new, Hp.
  now rewrite List.app_nil_r.
Qed.


Lemma own_present (o : Props.object V) (P : string) (p : Props.property V) :
  own o P = Some p -> In P (List.map fst o).
Proof.
  intros H. destruct (own o P) eqn:Ho; [|discriminate].
  destruct (List.in_dec String.string_dec P (List.map fst o)) as [Hin|Hout];
    [exact Hin|].
  apply own_absent in Hout. congruence.
Qed.

Lemma allowed_hidden (current : Props.property V) (v : V) :
  Props.allowed V SameValue current
    (Props.mkDescriptor V (Some v) (Some true) None None (Some false) (Some false))
  = Props.is_configurable V current
    || (negb (Props.is_accessor V current)
        && negb (Props.is_enumerable V current)
        && Props.is_writable V current).
Proof.
  destruct current as [cv cw ce cc|cg cs ce cc]; simpl;
    destruct cc, ce; try destruct cw; reflexivity.
Qed.

(** X16.  [__hidden] on any object.  It raises exactly when the
    object already has the property, not configurable, as an accessor,
    as an enumerable property or as a read-only one.  When it returns,
    the property holds the value, is writable, and is neither
    enumerable nor configurable; [Object.keys] is what it was without
    that name; the other properties are as before; and a later
    assignment to the property stores the new value and keeps it out
    of [Object.keys]. *)
Theorem hidden_property (inst : Props.object V) (name : string) (v : V) :
  List.NoDup (List.map fst inst) ->
  (__hidden inst name v = None
   <-> exists p,
        own inst name = Some p
        /\ Props.is_configurable V p = false
        /\ (Props.is_accessor V p = true
            \/ Props.is_enumerable V p = true
            \/ Props.is_writable V p = false))
  /\ forall inst',
      __hidden inst name v = Some inst' ->
      own inst' name = Some (Data v true false false)
      /\ keys inst' = List.filter (Props.other_than name) (keys inst)
      /\ (forall other, other <> name -> own inst' other = own inst other)
      /\ forall v',
          exists inst'',
            assign inst' name v' = Props.Stored V inst''
            /\ own inst'' name = Some (Data v' true false false)
            /\ keys inst'' = keys inst'.
Proof.
  intros Hnd. unfold Props.__hidden, Props.defineProperty. simpl.
  destruct (own inst name) as [current|] eqn:Hown.
  - split.
    + rewrite allowed_hidden. split.
      * intros H. exists current. split; [reflexivity|].
        destruct current as [cv cw ce cc|cg cs ce cc]; simpl in *;
          destruct cc; simpl in *; try discriminate;
          (split; [reflexivity|]); try destruct ce; try destruct cw;
          simpl in *; try discriminate; tauto.
      * intros [p [[= <-] [Hc Hor]]]. rewrite Hc. simpl.
        destruct current as [cv cw ce cc|cg cs ce cc]; simpl in *;
          [|reflexivity].
        destruct Hor as [H|[H|H]]; try discriminate; rewrite H;
          try reflexivity. now destruct ce.
    + intros inst' Hdef.
      assert (Hinst : inst' = replace inst name (Data v true false false)).
      { destruct (Props.allowed V SameValue current _); [|discriminate].
        injection Hdef as <-. f_equal.
        destruct current; reflexivity. }
      subst inst'.
      destruct (own_replace inst name (Data v true false false) current Hown)
        as [Hnew Hothers].
      split; [exact Hnew|]. split.
      { apply keys_replace_hidden; [exact Hnd| |reflexivity].
        now apply (own_present inst name current). }
      split; [exact Hothers|]. intros v'.
      unfold Props.assign. rewrite Hnew. eexists. split; [reflexivity|].
      destruct (own_replace (replace inst name (Data v true false false)) name
                  (Data v' true false false) _ Hnew) as [Hnew' _].
      split; [exact Hnew'|].
      now apply (keys_replace_same _ name _ (Data v true false false)).
  - split.
    + split; [discriminate|]. intros [p [Hp _]]. discriminate.
    + intros inst' [= <-].
      change (Props.create V undefined _) with (Data v true false false).
      destruct (own_app_new inst name (Data v true false false) Hown)
        as [Hnew Hothers].
      split; [exact Hnew|]. split.
      { rewrite keys_app_hidden by reflexivity.
        symmetry. apply keys_without_absent. now apply own_absent. }
      split; [exact Hothers|]. intros v'.
      unfold Props.assign. rewrite Hnew. eexists. split; [reflexivity|].
      destruct (own_replace (inst ++ [(name, Data v true false false)]) name
                  (Data v' true false false) _ Hnew) as [Hnew' _].
      split; [exact Hnew'|].
      now apply (keys_replace_same _ name _ (Data v true false false)).
Qed.


(** X18.  The own properties of an instance.  The constructor's
    definitions all succeed on a new object; [Object.keys] of the
    instance is [name] and [level]; assigning [level] calls the setter;
    the hidden [__level] and [__streams] can be assigned, which the
    setter and the constructor do, and stay out of [Object.keys]; none
    of the three defined properties can pass from hidden to virtual or
    back. *)
Theorem instance_own_properties (nm level table : V)
    (getLevel setLevel : Props.fn) :
  exists this,
    Props.instance_properties V SameValue undefined nm level table
      getLevel setLevel = Some this
    /\ keys this = ["name"; "level"]
    /\ (forall v, assign this "level" v = Props.CallsSetter V setLevel)
    /\ (forall v, exists this',
           assign this "__level" v = Props.Stored V this'
           /\ own this' "__level" = Some (Data v true false false)
           /\ keys this' = ["name"; "level"])
    /\ (forall v, exists this',
           assign this "__streams" v = Props.Stored V this'
           /\ own this' "__streams" = Some (Data v true false false)
           /\ keys this' = ["name"; "level"])
    /\ (forall v, __hidden this "level" v = None)
    /\ (forall g s, __virtual this "__level" g s = None)
    /\ (forall g s, __virtual this "__streams" g s = None).
Proof.
  eexists. split; [reflexivity|]. split; [reflexivity|].
  split; [reflexivity|].
  split; [intros v; eexists; split; [reflexivity|]; now split|].
  split; [intros v; eexists; split; [reflexivity|]; now split|].
  split; [reflexivity|].
  split; intros g s; now destruct s.
Qed.

End PropertyHelpers.

Lemma hidden_property_witness :
  exists inst',
    Props.__hidden nat Nat.eqb 0%nat [("name", Props.Data nat 7%nat true true true)]
      "__level" 2%nat = Some inst'
    /\ Props.keys nat inst' = ["name"]
    /\ Props.own nat inst' "__level" = Some (Props.Data nat 2%nat true false false).
Proof.
  assert (Hnd : List.NoDup
                  (List.map fst [("name", Props.Data nat 7%nat true true true)])).
  { repeat (constructor; [simpl; intuition discriminate|]). constructor. }
  destruct (hidden_property nat Nat.eqb 0%nat
              [("name", Props.Data nat 7%nat true true true)] "__level" 2%nat Hnd)
    as [_ H].
  eexists. split; [reflexivity|].
  destruct (H _ eq_refl) as (Hown & Hkeys & _).
  split; [exact Hkeys|exact Hown].
Defined.


(** Names that are array indices are listed first, by number, whenever
    they were defined. *)
Example index_names_listed_first :
  Props.__virtual nat Nat.eqb 0%nat
    [("b", Props.Data nat 7%nat true true true);
     ("10", Props.Data nat 7%nat true true true);
     ("01", Props.Data nat 7%nat true true true);
     ("__level", Props.Data nat 7%nat true false false)] "9" 1%nat None
  = Some [("b", Props.Data nat 7%nat true true true);
          ("10", Props.Data nat 7%nat true true true);
          ("01", Props.Data nat 7%nat true true true);
          ("__level", Props.Data nat 7%nat true false false);
          ("9", Props.Accessor nat (Some 1%nat) None true false)]
  /\ Props.keys nat
       [("b", Props.Data nat 7%nat true true true);
        ("10", Props.Data nat 7%nat true true true);
        ("01", Props.Data nat 7%nat true true true);
        ("__level", Props.Data nat 7%nat true false false);
        ("9", Props.Accessor nat (Some 1%nat) None true false)]
     = ["9"; "10"; "b"; "01"]
  /\ Props.array_index "4294967294" = Some 4294967294
  /\ Props.array_index "4294967295" = None
  /\ Props.array_index "0" = Some 0
  /\ Props.array_index "-0" = None
  /\ Props.array_index "" = None.
Proof. repeat split. Qed.
